(** * RoboNotesComplexEnv: a shallow embedding of [complex_env.py]

    The environment keeps a pre-allocated note trajectory, a cursor into
    it, a running reward and a ledger of partial rewards.  The reward
    function and the MIDI encoder are collaborators that live outside
    the file; they are parameters of the development. *)

From Stdlib Require Import ZArith String Ascii DecimalString.
From stdpp Require Import gmap strings list fin_maps.

Local Open Scope Z_scope.

(** ** Python exceptions and results *)

Inductive exn : Type :=
| IndexError
| ValueError
| OverflowError.

Inductive result (A : Type) : Type :=
| Ok (a : A)
| Raise (e : exn).

Arguments Ok {A} a.
Arguments Raise {A} e.

#[global] Instance result_ret : MRet result := fun A a => Ok a.

#[global] Instance result_bind : MBind result := fun A B k r =>
  match r with
  | Ok a => k a
  | Raise e => Raise e
  end.

(** ** numpy: two-dimensional arrays of machine integers *)

(** An [ndarray] of shape [(rows, cols)] and dtype [int] is the list of
    its rows. *)
Abbreviation ndarray := (list (list Z)).

(** [np.zeros((rows, cols), dtype='int')] *)
Definition np_zeros (rows cols : nat) : ndarray :=
  replicate rows (replicate cols 0).

(** [dtype='int'] is a signed 64-bit integer; a Python int outside of its
    range cannot be stored. *)
Definition int64_ok (x : Z) : bool :=
  (- 2 ^ 63 <=? x) && (x <? 2 ^ 63).

(** [a[i] = v] for a row index [i >= 0] and a Python list [v].  The index
    is checked first; the value is then converted to the array's dtype
    and broadcast to the shape of the row: a list with as many entries as
    the row is copied, a one-element list is repeated, any other length
    is refused. *)
Definition np_setrow (a : ndarray) (i : nat) (v : list Z) : result ndarray :=
  match a !! i with
  | None => Raise IndexError
  | Some row =>
      if negb (forallb int64_ok v) then Raise OverflowError
      else if (length v =? length row)%nat then Ok (<[i := v]> a)
      else if (length v =? 1)%nat then
        Ok (<[i := replicate (length row) (hd 0 v)]> a)
      else Raise ValueError
  end.

(** ** gym: box spaces *)

(** [spaces.Box(low, high, shape, dtype=int)] with scalar bounds.  *)
Record Box : Type := mkBox {
  low : Z;
  high : Z;
  shape : list nat
}.

(** [Box.contains]: the shape agrees and every entry lies between the
    bounds, both of which belong to the box. *)
Definition in_bounds (b : Box) (x : Z) : bool :=
  (low b <=? x) && (x <=? high b).

(** A vector belongs to a box of shape [(n,)]. *)
Definition contains_vec (b : Box) (x : list Z) : bool :=
  match shape b with
  | [n] => (length x =? n)%nat && forallb (in_bounds b) x
  | _ => false
  end.

(** An array, given by its rows, belongs to a box of shape [(n, p)]. *)
Definition contains_mat (b : Box) (x : ndarray) : bool :=
  match shape b with
  | [n; p] =>
      (length x =? n)%nat
      && forallb (fun row => (length row =? p)%nat && forallb (in_bounds b) row) x
  | _ => false
  end.

(** ** time and os.path *)

(** [time.struct_time], the fields that the formats below read. *)
Record struct_time : Type := mkTime {
  tm_year : nat;
  tm_mon : nat;
  tm_mday : nat;
  tm_hour : nat;
  tm_min : nat
}.

Definition decimal (n : nat) : string :=
  NilZero.string_of_uint (Nat.to_uint n).

(** A number printed on two digits, as [%m], [%d], [%y], [%H], [%M] do. *)
Definition two_digits (n : nat) : string :=
  (decimal ((n / 10) mod 10) ++ decimal (n mod 10))%string.

(** One conversion of [strftime].  [%s] is the C library's extension:
    the number of seconds since the Epoch that [mktime] gives for [t]. *)
Definition directive (mktime : struct_time -> Z) (c : ascii) (t : struct_time)
  : string :=
  if Ascii.eqb c "m" then two_digits (tm_mon t)
  else if Ascii.eqb c "d" then two_digits (tm_mday t)
  else if Ascii.eqb c "y" then two_digits (tm_year t mod 100)
  else if Ascii.eqb c "H" then two_digits (tm_hour t)
  else if Ascii.eqb c "M" then two_digits (tm_min t)
  else if Ascii.eqb c "s" then NilZero.string_of_int (Z.to_int (mktime t))
  else String "%" (String c EmptyString).

(** [time.strftime(fmt, t)] *)
Fixpoint strftime (mktime : struct_time -> Z) (fmt : string) (t : struct_time)
  : string :=
  match fmt with
  | EmptyString => EmptyString
  | String c EmptyString => String c EmptyString
  | String c (String d rest as tail) =>
      if Ascii.eqb c "%" then (directive mktime d t ++ strftime mktime rest t)%string
      else String c (strftime mktime tail t)
  end.

Definition startswith_sep (s : string) : bool :=
  match s with
  | String c _ => Ascii.eqb c "/"
  | EmptyString => false
  end.

Fixpoint endswith_sep (s : string) : bool :=
  match s with
  | EmptyString => false
  | String c EmptyString => Ascii.eqb c "/"
  | String _ rest => endswith_sep rest
  end.

(** [os.path.join(a, b)] of [posixpath] *)
Definition path_join (a b : string) : string :=
  if startswith_sep b then b
  else if bool_decide (a = EmptyString) || endswith_sep a then (a ++ b)%string
  else (a ++ "/" ++ b)%string.

(** Truth value of an optional directory: [None] and [''] are false. *)
Definition truthy (d : option string) : bool :=
  match d with
  | Some s => negb (bool_decide (s = EmptyString))
  | None => false
  end.

(** ** The collaborators of the environment *)

(** Python numbers (rewards and the entries of an info dict) with their
    addition, the int constant [0] and the float constant [0.0]; no law
    of arithmetic is assumed, sums are taken in the order in which the
    program adds, and the two zeros are not assumed to add alike.
    [calc_reward] is
    [reward.calc_reward(trajectory, idx)], which returns a reward and an
    info dict; [convert_observation_to_midi_sequence] is the encoder of
    [midi.midi_writer]; [mktime] is the C library's, which [%s] of
    [strftime] prints. *)
Class Collaborators : Type := {
  num : Type;
  py_add : num -> num -> num;
  py_zero : num;
  py_float_zero : num;
  calc_reward : ndarray -> nat -> num * gmap string num;
  midi : Type;
  convert_observation_to_midi_sequence : ndarray -> midi;
  mktime : struct_time -> Z
}.

(** ** The environment *)

Section RoboNotes.

Context `{Collaborators}.

(** The attributes of a [RoboNotesComplexEnv]. *)
Record env : Type := mkEnv {
  action_space : Box;
  observation_space : Box;
  max_trajectory_len : nat;
  num_pitches : nat;
  midi_savedir : option string;
  obs_trajectory : ndarray;
  trajectory_idx : nat;
  total_reward : num;
  partial_rewards : gmap string num
}.

(** What [step] returns.  The observation is the trajectory array of the
    object itself, not a copy; the record holds its contents at the time
    of the return. *)
Record step_result : Type := mkStep {
  observation : ndarray;
  reward : num;
  terminated : bool;
  truncated : bool;
  info : gmap string num
}.

(** What [print] shows and what [convert_to_midi_file] writes. *)
Inductive pyval : Type :=
| VNum (x : num)
| VDict (d : gmap string num)
| VList (l : ndarray)
| VMidi (m : midi).

Inductive effect : Type :=
| Print (label : string) (v : pyval)
| WriteMidiFile (m : midi) (path : string).

Definition get_initial_ob (max_trajectory_len num_pitches : nat) : ndarray :=
  np_zeros max_trajectory_len num_pitches.

Definition __init__ (max_trajectory_len num_pitches : nat)
    (midi_savedir : option string) : env :=
  {| action_space := mkBox 0 37 [num_pitches];
     observation_space := mkBox 0 37 [max_trajectory_len; num_pitches];
     max_trajectory_len := max_trajectory_len;
     num_pitches := num_pitches;
     midi_savedir := midi_savedir;
     obs_trajectory := get_initial_ob max_trajectory_len num_pitches;
     trajectory_idx := 0;
     total_reward := py_float_zero;
     partial_rewards := ∅ |}.

(** [reset] returns the new state of the object, the observation and an
    empty info dict. *)
Definition reset (self : env) : env * (ndarray * gmap string num) :=
  let ob := get_initial_ob (max_trajectory_len self) (num_pitches self) in
  ({| action_space := action_space self;
      observation_space := observation_space self;
      max_trajectory_len := max_trajectory_len self;
      num_pitches := num_pitches self;
      midi_savedir := midi_savedir self;
      obs_trajectory := ob;
      total_reward := py_zero;
      trajectory_idx := 0;
      partial_rewards := ∅ |},
   (ob, ∅)).

(** [for k, v in info.items(): partial_rewards[k] += v] on a
    [defaultdict(int)]: a missing entry reads as [0]. *)
Definition add_partial (k : string) (v : num) (acc : gmap string num)
  : gmap string num :=
  <[k := py_add (default py_zero (acc !! k)) v]> acc.

Definition accumulate (ledger info : gmap string num) : gmap string num :=
  map_fold add_partial ledger info.

Definition step (self : env) (action : list Z) : result (env * step_result) :=
  traj ← np_setrow (obs_trajectory self) (trajectory_idx self) action;
  let idx := S (trajectory_idx self) in
  let '(reward, info) := calc_reward traj idx in
  let total := py_add (total_reward self) reward in
  let terminated := (max_trajectory_len self <=? idx)%nat in
  let truncated := false in
  let partial := accumulate (partial_rewards self) info in
  mret ({| action_space := action_space self;
           observation_space := observation_space self;
           max_trajectory_len := max_trajectory_len self;
           num_pitches := num_pitches self;
           midi_savedir := midi_savedir self;
           obs_trajectory := traj;
           trajectory_idx := idx;
           total_reward := total;
           partial_rewards := partial |},
        mkStep traj reward terminated truncated info).

(** [for k in info: total_info[k] = total_info.get(k, 0) + info[k]] *)
Definition merge_info (total_info info : gmap string num) : gmap string num :=
  map_fold (fun k v acc => <[k := py_add (default py_zero (acc !! k)) v]> acc)
           total_info info.

(** The loop [for t in range(1, len(trajectory))] of [save_midi]. *)
Definition rescore (trajectory : ndarray) : num * gmap string num :=
  foldl (fun '(total_reward, total_info) t =>
           let '(reward, info) := calc_reward trajectory t in
           (py_add total_reward reward, merge_info total_info info))
        (py_zero, ∅) (seq 1 (length trajectory - 1)).

Definition midi_fname (timestamp : string) (rows : nat) : string :=
  ("ts" ++ timestamp ++ "_ep" ++ decimal rows ++ ".midi")%string.

(** The static method [save_midi]; [now] is what [time.localtime()]
    returns when it is called. *)
Definition save_midi (trajectory : ndarray) (midi_savedir : option string)
    (now : struct_time) : list effect :=
  let render_trajectory := trajectory in
  let midi_sequence := convert_observation_to_midi_sequence render_trajectory in
  let '(total_reward, total_info) := rescore trajectory in
  [ Print "Total reward" (VNum total_reward);
    Print "Info" (VDict total_info);
    Print "Trajectory" (VList render_trajectory);
    Print "MIDI sequence" (VMidi midi_sequence) ]
  ++ (if truthy midi_savedir then
        let timestamp := strftime mktime "%m-%d-%y_%H%M" now in
        let fname := midi_fname timestamp (length render_trajectory) in
        [ WriteMidiFile midi_sequence (path_join (default "" midi_savedir) fname) ]
      else []).

(** [render] returns the state of the object after the call and what the
    call printed and wrote. *)
Definition render (self : env) (mode : string) (now : struct_time)
  : env * list effect :=
  let render_trajectory := obs_trajectory self in
  let midi_sequence := convert_observation_to_midi_sequence render_trajectory in
  (self,
   [ Print "Total reward" (VNum (total_reward self));
     Print "Partial rewards" (VDict (partial_rewards self));
     Print "Current state is" (VList render_trajectory);
     Print "MIDI sequence" (VMidi midi_sequence) ]
   ++ (if truthy (midi_savedir self) then
         let timestamp := strftime mktime "%m-%d-%y_%H%M%s" now in
         let fname := midi_fname timestamp (length render_trajectory) in
         [ WriteMidiFile midi_sequence
             (path_join (default "" (midi_savedir self)) fname) ]
       else [])).

(** ** Episodes *)

(** An agent that calls [step] once for each action of a list, and stops
    at the first exception. *)
Fixpoint run (self : env) (actions : list (list Z))
  : result (env * list step_result) :=
  match actions with
  | [] => mret (self, [])
  | action :: rest =>
      '(self1, out) ← step self action;
      '(self2, outs) ← run self1 rest;
      mret (self2, out :: outs)
  end.

(** The states that an object can be in: after its construction, and
    after calls of [reset], [step] and [render]. *)
Inductive reachable : env -> Prop :=
| reach_init n p d : reachable (__init__ n p d)
| reach_reset self : reachable self -> reachable (fst (reset self))
| reach_step self action self' out :
    reachable self -> step self action = Ok (self', out) -> reachable self'
| reach_render self mode now :
    reachable self -> reachable (fst (render self mode now)).

(** An action that [step] stores as it is: one entry for each pitch, each
    a machine integer. *)
Definition storable (self : env) (action : list Z) : bool :=
  (length action =? num_pitches self)%nat && forallb int64_ok action.

(** The trajectory of an object that has taken the actions [hist] since
    the last reset: the cursor counts them, the rows below the cursor
    hold them, the rows from the cursor on are zero. *)
Definition filled (self : env) (hist : list (list Z)) : Prop :=
  trajectory_idx self = length hist
  /\ length (obs_trajectory self) = max_trajectory_len self
  /\ (forall k, (k < trajectory_idx self)%nat ->
        obs_trajectory self !! k = hist !! k)
  /\ (forall k, (trajectory_idx self <= k < max_trajectory_len self)%nat ->
        obs_trajectory self !! k = Some (replicate (num_pitches self) 0)).

(** The buffer of an object keeps its shape, and the declared spaces and
    the configuration never change. *)
Definition well_formed (self : env) : Prop :=
  length (obs_trajectory self) = max_trajectory_len self
  /\ Forall (fun row => length row = num_pitches self) (obs_trajectory self)
  /\ action_space self = mkBox 0 37 [num_pitches self]
  /\ observation_space self
     = mkBox 0 37 [max_trajectory_len self; num_pitches self].

(** The buffer of an object configured for [rows] rows of [cols] pitches
    once it has taken the first [n] of [actions]. *)
Definition buffer_after (rows cols : nat) (actions : list (list Z)) (n : nat)
  : ndarray :=
  take n actions ++ replicate (rows - n) (replicate cols 0).

(** A reward function that reads the rows below the cursor only: on two
    buffers of one length that agree below the cursor it returns the
    same. *)
Definition prefix_local : Prop :=
  forall (tr1 tr2 : ndarray) (t : nat),
    length tr1 = length tr2 -> take t tr1 = take t tr2 ->
    calc_reward tr1 t = calc_reward tr2 t.

(** The paths of the files that a call wrote. *)
Definition files_written (effects : list effect) : list string :=
  omap (fun e => match e with
                 | WriteMidiFile _ path => Some path
                 | Print _ _ => None
                 end) effects.

End RoboNotes.

(** ** A concrete set of collaborators *)

(** A reward that reads the rows below the cursor only: the sum of their
    entries, reported under two keys of the info dict as well. *)
Definition demo_reward (trajectory : ndarray) (idx : nat) : Z * gmap string Z :=
  let s := foldr Z.add 0 (foldr Z.add 0 <$> take idx trajectory) in
  (s, {[ "pitch_sum" := s; "steps" := 1 ]}).

(** 2 January 2023, 03:04, and the seconds since the Epoch at that time
    (UTC).  The numbers of the scenario are integers, among which [0.0]
    is 0. *)
Definition demo_now : struct_time :=
  {| tm_year := 2023; tm_mon := 1; tm_mday := 2; tm_hour := 3; tm_min := 4 |}.

Definition demo : Collaborators :=
  {| num := Z;
     py_add := Z.add;
     py_zero := 0;
     py_float_zero := 0;
     calc_reward := demo_reward;
     midi := ndarray;
     convert_observation_to_midi_sequence := fun l => l;
     mktime := fun _ => 1672628640 |}.

(** The scenario of four steps with two pitches. *)
Definition demo_env : @env demo := @__init__ demo 4 2 (Some "out").

Definition demo_actions : list (list Z) := [[5; 0]; [0; 0]; [7; 1]; [1; 1]].

(** The episode of the scenario: the object after the four steps and what
    the steps returned. *)
Definition demo_episode : @env demo * list (@step_result demo) :=
  match @run demo (fst (@reset demo demo_env)) demo_actions with
  | Ok r => r
  | Raise _ => (demo_env, [])
  end.

(** The first step of the scenario alone. *)
Definition demo_first : @env demo * @step_result demo :=
  match @step demo demo_env [5; 0] with
  | Ok r => r
  | Raise _ => (demo_env, @mkStep demo [] 0 false false ∅)
  end.

(** ** Properties *)

Section Properties.

Context `{Collaborators}.

(** *** The ledger *)

Lemma accumulate_lookup (ledger info : gmap string num) (k : string) :
  accumulate ledger info !! k =
    match info !! k with
    | Some v => Some (py_add (default py_zero (ledger !! k)) v)
    | None => ledger !! k
    end.
Proof.
  unfold accumulate.
  apply (map_fold_weak_ind (fun r m =>
    r !! k = match m !! k with
             | Some v => Some (py_add (default py_zero (ledger !! k)) v)
             | None => ledger !! k
             end)).
  - by rewrite lookup_empty.
  - intros i x m r Hfresh IH. unfold add_partial.
    destruct (decide (i = k)) as [->|Hne].
    + rewrite !lookup_insert_eq. rewrite Hfresh in IH. by rewrite IH.
    + by rewrite !lookup_insert_ne.
Qed.

Lemma merge_info_accumulate (total_info info : gmap string num) :
  merge_info total_info info = accumulate total_info info.
Proof. reflexivity. Qed.

(** *** Row assignment *)

Lemma np_setrow_fits (a : ndarray) (i : nat) (row v : list Z) :
  a !! i = Some row ->
  length v = length row ->
  forallb int64_ok v = true ->
  np_setrow a i v = Ok (<[i := v]> a).
Proof.
  intros Hrow Hlen Hfit. unfold np_setrow.
  rewrite Hrow, Hfit, Hlen. simpl. by rewrite Nat.eqb_refl.
Qed.

Lemma np_setrow_shape (a a' : ndarray) (i : nat) (v : list Z) (cols : nat) :
  np_setrow a i v = Ok a' ->
  Forall (fun row => length row = cols) a ->
  length a' = length a /\ Forall (fun row => length row = cols) a'.
Proof.
  unfold np_setrow. intros Hset Hall.
  destruct (a !! i) as [row|] eqn:Hrow; [|discriminate].
  assert (length row = cols) as Hcols.
  { by apply (Forall_lookup_1 _ _ _ _ Hall Hrow). }
  destruct (negb (forallb int64_ok v)); [discriminate|].
  destruct (length v =? length row)%nat eqn:Hlen.
  - apply Nat.eqb_eq in Hlen. inversion Hset; subst a'.
    split; [apply length_insert|].
    apply Forall_insert; [done|congruence].
  - destruct (length v =? 1)%nat; [|discriminate].
    inversion Hset; subst a'.
    split; [apply length_insert|].
    apply Forall_insert; [done|]. by rewrite length_replicate.
Qed.

(** *** Well-formed states *)

Lemma np_zeros_shape (rows cols : nat) :
  length (np_zeros rows cols) = rows
  /\ Forall (fun row => length row = cols) (np_zeros rows cols).
Proof.
  unfold np_zeros. split; [apply length_replicate|].
  apply Forall_replicate, length_replicate.
Qed.

Lemma step_inv (self self' : env) (action : list Z) (out : step_result) :
  step self action = Ok (self', out) ->
  exists traj,
    np_setrow (obs_trajectory self) (trajectory_idx self) action = Ok traj
    /\ self' = {| action_space := action_space self;
                  observation_space := observation_space self;
                  max_trajectory_len := max_trajectory_len self;
                  num_pitches := num_pitches self;
                  midi_savedir := midi_savedir self;
                  obs_trajectory := traj;
                  trajectory_idx := S (trajectory_idx self);
                  total_reward :=
                    py_add (total_reward self)
                           (fst (calc_reward traj (S (trajectory_idx self))));
                  partial_rewards :=
                    accumulate (partial_rewards self)
                               (snd (calc_reward traj (S (trajectory_idx self)))) |}
    /\ out = mkStep traj
               (fst (calc_reward traj (S (trajectory_idx self))))
               (max_trajectory_len self <=? S (trajectory_idx self))%nat
               false
               (snd (calc_reward traj (S (trajectory_idx self)))).
Proof.
  unfold step. intros Hstep.
  destruct (np_setrow (obs_trajectory self) (trajectory_idx self) action)
    as [traj|e] eqn:Hset; simpl in Hstep; [|discriminate].
  exists traj. split; [done|].
  destruct (calc_reward traj (S (trajectory_idx self))) as [r i].
  by inversion Hstep.
Qed.

Lemma step_ok (self : env) (action : list Z) (traj : ndarray) :
  np_setrow (obs_trajectory self) (trajectory_idx self) action = Ok traj ->
  exists self' out, step self action = Ok (self', out).
Proof.
  intros Hset. unfold step. rewrite Hset. simpl.
  destruct (calc_reward traj (S (trajectory_idx self))) as [r i].
  by eexists _, _.
Qed.

Lemma reachable_well_formed (self : env) :
  reachable self -> well_formed self.
Proof.
  induction 1 as [n p d|self _ IH|self action self' out _ IH Hstep|self mode now _ IH].
  - destruct (np_zeros_shape n p). by repeat split.
  - destruct IH as (_ & _ & Ha & Ho).
    destruct (np_zeros_shape (max_trajectory_len self) (num_pitches self)).
    by repeat split.
  - destruct IH as (Hlen & Hrows & Ha & Ho).
    apply step_inv in Hstep as (traj & Hset & -> & _).
    destruct (np_setrow_shape _ _ _ _ _ Hset Hrows) as [Hlen' Hrows'].
    repeat split; simpl; [congruence|done..].
  - exact IH.
Qed.

(** *** The trajectory buffer *)

Lemma filled_cursor_le (self : env) (hist : list (list Z)) :
  filled self hist -> (trajectory_idx self <= max_trajectory_len self)%nat.
Proof.
  intros (Hidx & Hlen & Hlow & _).
  destruct (decide (trajectory_idx self <= max_trajectory_len self)%nat) as [|Hgt];
    [done|exfalso].
  assert (max_trajectory_len self < trajectory_idx self)%nat as Hlt by lia.
  specialize (Hlow _ Hlt).
  rewrite (lookup_ge_None_2 (obs_trajectory self)) in Hlow by lia.
  symmetry in Hlow. apply lookup_ge_None_1 in Hlow. lia.
Qed.

(** The buffer in closed form: the actions taken, then zero rows. *)
Lemma filled_buffer (self : env) (hist : list (list Z)) :
  filled self hist ->
  obs_trajectory self
  = hist ++ replicate (max_trajectory_len self - length hist)
                      (replicate (num_pitches self) 0).
Proof.
  intros Hfilled. pose proof (filled_cursor_le _ _ Hfilled) as Hle.
  destruct Hfilled as (Hidx & Hlen & Hlow & Hhigh).
  apply list_eq. intros k.
  destruct (decide (k < length hist)%nat) as [Hk|Hk].
  - rewrite lookup_app_l by done. apply Hlow. lia.
  - rewrite lookup_app_r by lia.
    destruct (decide (k < max_trajectory_len self)%nat) as [Hin|Hout].
    + rewrite Hhigh by lia. symmetry. apply lookup_replicate_2. lia.
    + rewrite lookup_ge_None_2 by lia. symmetry.
      apply lookup_ge_None_2. rewrite length_replicate. lia.
Qed.

Lemma reset_filled (self : env) : filled (fst (reset self)) [].
Proof.
  repeat split; simpl.
  - apply length_replicate.
  - intros k Hk. lia.
  - intros k Hk. apply lookup_replicate_2. lia.
Qed.

Lemma init_filled (n p : nat) (d : option string) : filled (__init__ n p d) [].
Proof.
  repeat split; simpl.
  - apply length_replicate.
  - intros k Hk. lia.
  - intros k Hk. apply lookup_replicate_2. lia.
Qed.

Lemma step_filled (self : env) (hist : list (list Z)) (action : list Z) :
  filled self hist ->
  (trajectory_idx self < max_trajectory_len self)%nat ->
  storable self action = true ->
  exists self' out,
    step self action = Ok (self', out)
    /\ filled self' (hist ++ [action])
    /\ max_trajectory_len self' = max_trajectory_len self
    /\ num_pitches self' = num_pitches self
    /\ obs_trajectory self' = <[trajectory_idx self := action]> (obs_trajectory self)
    /\ observation out = obs_trajectory self'
    /\ (reward out, info out)
       = calc_reward (obs_trajectory self') (S (trajectory_idx self)).
Proof.
  intros (Hidx & Hlen & Hlow & Hhigh) Hlt Hst.
  apply andb_prop in Hst as [Hcols Hfit]. apply Nat.eqb_eq in Hcols.
  assert (np_setrow (obs_trajectory self) (trajectory_idx self) action
          = Ok (<[trajectory_idx self := action]> (obs_trajectory self))) as Hset.
  { eapply np_setrow_fits; [apply Hhigh; lia| |done].
    by rewrite length_replicate. }
  destruct (step_ok _ _ _ Hset) as (self' & out & Hstep).
  exists self', out. split; [done|].
  apply step_inv in Hstep as (traj & Hset' & -> & ->).
  rewrite Hset in Hset'. inversion Hset'; subst traj. simpl.
  split; [|by rewrite <- surjective_pairing].
  repeat split; simpl.
  - rewrite length_app. simpl. lia.
  - by rewrite length_insert.
  - intros k Hk. destruct (decide (k = trajectory_idx self)) as [->|Hne].
    + rewrite list_lookup_insert_eq by lia.
      rewrite Hidx. by rewrite list_lookup_middle.
    + rewrite list_lookup_insert_ne by done.
      rewrite lookup_app_l by lia. apply Hlow. lia.
  - intros k Hk. rewrite list_lookup_insert_ne by lia. apply Hhigh. lia.
Qed.

(** *** Episodes *)

Lemma run_cons_inv (self self' : env) (action : list Z)
    (rest : list (list Z)) (outs : list step_result) :
  run self (action :: rest) = Ok (self', outs) ->
  exists self1 out outs',
    step self action = Ok (self1, out)
    /\ run self1 rest = Ok (self', outs')
    /\ outs = out :: outs'.
Proof.
  simpl. intros Hrun.
  destruct (step self action) as [[self1 out]|e] eqn:Hstep;
    simpl in Hrun; [|discriminate].
  destruct (run self1 rest) as [[self2 outs']|e] eqn:Hrest;
    simpl in Hrun; [|discriminate].
  inversion Hrun; subst. by exists self1, out, outs'.
Qed.

Lemma run_total_reward (actions : list (list Z)) (self self' : env)
    (outs : list step_result) :
  run self actions = Ok (self', outs) ->
  total_reward self' = foldl py_add (total_reward self) (reward <$> outs).
Proof.
  revert self outs. induction actions as [|action rest IH]; intros self outs Hrun.
  - inversion Hrun; subst. reflexivity.
  - apply run_cons_inv in Hrun as (self1 & out & outs' & Hstep & Hrest & ->).
    rewrite (IH _ _ Hrest). simpl.
    apply step_inv in Hstep as (traj & _ & -> & ->). reflexivity.
Qed.

Lemma run_partial_rewards (actions : list (list Z)) (self self' : env)
    (outs : list step_result) :
  run self actions = Ok (self', outs) ->
  partial_rewards self' = foldl accumulate (partial_rewards self) (info <$> outs).
Proof.
  revert self outs. induction actions as [|action rest IH]; intros self outs Hrun.
  - inversion Hrun; subst. reflexivity.
  - apply run_cons_inv in Hrun as (self1 & out & outs' & Hstep & Hrest & ->).
    rewrite (IH _ _ Hrest). simpl.
    apply step_inv in Hstep as (traj & _ & -> & ->). reflexivity.
Qed.

Lemma run_flags (actions : list (list Z)) (self self' : env)
    (outs : list step_result) :
  run self actions = Ok (self', outs) ->
  length outs = length actions
  /\ forall k out, outs !! k = Some out ->
       terminated out
       = (max_trajectory_len self <=? S (trajectory_idx self + k))%nat
       /\ truncated out = false.
Proof.
  revert self outs. induction actions as [|action rest IH]; intros self outs Hrun.
  - inversion Hrun; subst. split; [done|]. intros k out Hk. by destruct k.
  - apply run_cons_inv in Hrun as (self1 & out & outs' & Hstep & Hrest & ->).
    destruct (IH _ _ Hrest) as [Hlen Hflags].
    apply step_inv in Hstep as (traj & _ & -> & ->). simpl in *.
    split; [by rewrite Hlen|].
    intros [|k] out' Hk; simpl in Hk.
    + inversion Hk; subst out'. simpl. by rewrite Nat.add_0_r.
    + destruct (Hflags _ _ Hk) as [-> ->]. split; [|done].
      f_equal. lia.
Qed.

Lemma storable_same_pitches (self self' : env) (action : list Z) :
  num_pitches self' = num_pitches self ->
  storable self' action = storable self action.
Proof. unfold storable. by intros ->. Qed.

Lemma run_filled (actions : list (list Z)) (self : env) (hist : list (list Z)) :
  filled self hist ->
  Forall (fun action => storable self action = true) actions ->
  (length hist + length actions <= max_trajectory_len self)%nat ->
  exists self' outs,
    run self actions = Ok (self', outs)
    /\ filled self' (hist ++ actions)
    /\ max_trajectory_len self' = max_trajectory_len self
    /\ num_pitches self' = num_pitches self
    /\ forall k out, outs !! k = Some out ->
         observation out
         = buffer_after (max_trajectory_len self) (num_pitches self)
                        (hist ++ actions) (length hist + S k)
         /\ (reward out, info out)
            = calc_reward (observation out) (length hist + S k).
Proof.
  revert self hist.
  induction actions as [|action rest IH]; intros self hist Hfilled Hst Hlen.
  - exists self, []. rewrite app_nil_r.
    do 4 (split; [done|]). intros k out Hk. by destruct k.
  - simpl in Hlen. apply Forall_cons in Hst as [Hst Hrest].
    pose proof Hfilled as (Hidx & _).
    destruct (step_filled self hist action Hfilled) as
      (self1 & out & Hstep & Hfilled1 & Hmax & Hp & _ & Hob & Hrew);
      [lia|done|].
    destruct (IH self1 (hist ++ [action]) Hfilled1) as
      (self2 & outs & Hrun & Hfilled2 & Hmax2 & Hp2 & Houts).
    { eapply Forall_impl; [exact Hrest|]. intros a Ha.
      by rewrite (storable_same_pitches self). }
    { rewrite length_app, Hmax. simpl. lia. }
    exists self2, (out :: outs). simpl. rewrite Hstep. simpl. rewrite Hrun. simpl.
    rewrite <- app_assoc in Hfilled2. simpl in Hfilled2.
    split; [done|]. split; [done|]. split; [congruence|]. split; [congruence|].
    intros [|k] out' Hk; simpl in Hk.
    + inversion Hk; subst out'. rewrite Hidx in Hrew.
      replace (length hist + 1)%nat with (S (length hist)) by lia.
      split; [|by rewrite Hob].
      rewrite Hob, (filled_buffer _ _ Hfilled1), Hmax, Hp. unfold buffer_after.
      rewrite length_app. simpl.
      replace (hist ++ action :: rest) with ((hist ++ [action]) ++ rest)
        by (by rewrite <- app_assoc).
      rewrite take_app_length' by (rewrite length_app; simpl; lia).
      do 2 f_equal. lia.
    + destruct (Houts _ _ Hk) as [Hobk Hrewk].
      rewrite length_app in Hobk, Hrewk. simpl in Hobk, Hrewk.
      rewrite <- app_assoc in Hobk. simpl in Hobk.
      replace (length hist + S (S k))%nat with (length hist + 1 + S k)%nat by lia.
      split; [|done]. by rewrite Hobk, Hmax, Hp.
Qed.

(** *** The claims about [reset] and [step] *)

(** C2. After a reset and any sequence of at most [max_trajectory_len]
    actions of [num_pitches] integers each, every call of [step] returns,
    the cursor counts the actions, row [k] of the trajectory is the
    [k]-th action for every [k] below the cursor and is all zero for
    every [k] from the cursor on; a further step taken while the cursor is
    below [max_trajectory_len] returns and keeps this invariant. *)
Theorem trajectory_rows_filled (self : env) (actions : list (list Z)) :
  Forall (fun action => storable self action = true) actions ->
  (length actions <= max_trajectory_len self)%nat ->
  exists self' outs,
    run (fst (reset self)) actions = Ok (self', outs)
    /\ trajectory_idx self' = length actions
    /\ (forall k, (k < trajectory_idx self')%nat ->
          obs_trajectory self' !! k = actions !! k)
    /\ (forall k, (trajectory_idx self' <= k < max_trajectory_len self')%nat ->
          obs_trajectory self' !! k = Some (replicate (num_pitches self') 0))
    /\ (forall action,
          (trajectory_idx self' < max_trajectory_len self')%nat ->
          storable self' action = true ->
          exists self'' out,
            step self' action = Ok (self'', out)
            /\ filled self'' (actions ++ [action])).
Proof.
  intros Hst Hlen.
  destruct (run_filled actions (fst (reset self)) [] (reset_filled self))
    as (self' & outs & Hrun & Hfilled & _ & _ & _); [done|simpl; lia|].
  simpl in Hfilled. exists self', outs. split; [done|].
  pose proof Hfilled as (Hidx & _ & Hlow & Hhigh).
  do 3 (split; [done|]).
  intros action Hlt Hact.
  destruct (step_filled self' actions action Hfilled Hlt Hact)
    as (self'' & out & Hstep & Hfilled' & _).
  by exists self'', out.
Qed.

(** C3. After a reset, [max_trajectory_len] actions of [num_pitches]
    integers each are all accepted; the call number [k + 1] returns
    [terminated] exactly when [k + 1], the cursor after its increment,
    is [max_trajectory_len], that is on the last call and on no earlier
    one, and every call returns [truncated] false. *)
Theorem terminated_on_last_step (self : env) (actions : list (list Z)) :
  Forall (fun action => storable self action = true) actions ->
  length actions = max_trajectory_len self ->
  exists self' outs,
    run (fst (reset self)) actions = Ok (self', outs)
    /\ length outs = max_trajectory_len self
    /\ trajectory_idx self' = max_trajectory_len self
    /\ forall k out, outs !! k = Some out ->
         terminated out = bool_decide (S k = max_trajectory_len self)
         /\ truncated out = false.
Proof.
  intros Hst Hlen.
  destruct (run_filled actions (fst (reset self)) [] (reset_filled self))
    as (self' & outs & Hrun & Hfilled & _ & _ & _); [done|simpl; lia|].
  exists self', outs. split; [done|].
  destruct (run_flags _ _ _ _ Hrun) as [Hlen' Hflags].
  destruct Hfilled as (Hidx & _). simpl in Hidx.
  split; [congruence|]. split; [congruence|].
  intros k out Hk. destruct (Hflags _ _ Hk) as [-> ->]. split; [|done].
  apply lookup_lt_Some in Hk. simpl.
  case_bool_decide as Hlast.
  - apply Nat.leb_le. lia.
  - apply Nat.leb_gt. lia.
Qed.

(** C4. At every point of an episode the tracked [total_reward] is the
    sum, taken in the order of the calls, of the rewards that [step] has
    returned since the last reset. *)
Theorem total_reward_is_sum (self self' : env) (actions : list (list Z))
    (outs : list step_result) :
  run (fst (reset self)) actions = Ok (self', outs) ->
  total_reward self' = foldl py_add py_zero (reward <$> outs).
Proof. intros Hrun. by rewrite (run_total_reward _ _ _ _ Hrun). Qed.

(** C5. [reset] is total; the observation that it returns has
    [max_trajectory_len] rows of [num_pitches] zeros and is the new
    trajectory, the cursor is 0, the total reward is 0, the ledger and
    the returned info are empty, the configuration is kept, and nothing
    of the trajectory, cursor, total and ledger from before the call
    has a bearing on the result. *)
Theorem reset_clears (self : env) :
  let self' := fst (reset self) in
  let ob := fst (snd (reset self)) in
  length ob = max_trajectory_len self
  /\ Forall (fun row => length row = num_pitches self /\ Forall (eq 0) row) ob
  /\ obs_trajectory self' = ob
  /\ trajectory_idx self' = 0%nat
  /\ total_reward self' = py_zero
  /\ partial_rewards self' = ∅
  /\ snd (snd (reset self)) = ∅
  /\ max_trajectory_len self' = max_trajectory_len self
  /\ num_pitches self' = num_pitches self
  /\ midi_savedir self' = midi_savedir self
  /\ forall traj idx total ledger,
       reset (mkEnv (action_space self) (observation_space self)
                    (max_trajectory_len self) (num_pitches self)
                    (midi_savedir self) traj idx total ledger)
       = reset self.
Proof.
  simpl. split; [apply length_replicate|].
  split; [|done].
  apply Forall_replicate. split; [apply length_replicate|].
  by apply Forall_replicate.
Qed.

(** C6. In a reachable state whose cursor is below
    [max_trajectory_len], [step] on an action of [num_pitches] integers
    returns: the new trajectory is the old one with the action written
    at the cursor, the cursor is one more, the reward and the info that
    are returned are those of [calc_reward] on the whole new buffer and
    the new cursor, the observation is the whole new buffer, and the
    reward returned is the step's own, which the total reward grows by. *)
Theorem step_writes_then_scores (self : env) (action : list Z) :
  reachable self ->
  (trajectory_idx self < max_trajectory_len self)%nat ->
  storable self action = true ->
  exists self' out,
    step self action = Ok (self', out)
    /\ obs_trajectory self'
       = <[trajectory_idx self := action]> (obs_trajectory self)
    /\ obs_trajectory self' !! trajectory_idx self = Some action
    /\ length (obs_trajectory self') = max_trajectory_len self
    /\ trajectory_idx self' = S (trajectory_idx self)
    /\ (reward out, info out)
       = calc_reward (obs_trajectory self') (trajectory_idx self')
    /\ observation out = obs_trajectory self'
    /\ total_reward self' = py_add (total_reward self) (reward out).
Proof.
  intros Hreach Hlt Hst.
  destruct (reachable_well_formed _ Hreach) as (Hlen & Hrows & _).
  apply andb_prop in Hst as [Hcols Hfit]. apply Nat.eqb_eq in Hcols.
  destruct (lookup_lt_is_Some_2 (obs_trajectory self) (trajectory_idx self))
    as [row Hrow]; [lia|].
  assert (length row = num_pitches self) as Hrowlen
    by apply (Forall_lookup_1 _ _ _ _ Hrows Hrow).
  assert (np_setrow (obs_trajectory self) (trajectory_idx self) action
          = Ok (<[trajectory_idx self := action]> (obs_trajectory self))) as Hset.
  { eapply np_setrow_fits; [exact Hrow|congruence|done]. }
  destruct (step_ok _ _ _ Hset) as (self' & out & Hstep).
  exists self', out. split; [done|].
  apply step_inv in Hstep as (traj & Hset' & -> & ->).
  rewrite Hset in Hset'. inversion Hset'; subst traj. simpl.
  split; [done|]. split; [apply list_lookup_insert_eq; lia|].
  split; [by rewrite length_insert|]. split; [done|].
  split; [by rewrite <- surjective_pairing|done].
Qed.

(** C7. A call of [step] that returns has assigned the action's row to
    the buffer and moved the cursor on by one; the info that it returns is
    the info that [calc_reward] returned for the new buffer and the new
    cursor; for every key of this info its value is added to the ledger
    entry of that key, an absent entry counting as 0, and the entries of
    all other keys are as they were. *)
Theorem ledger_accumulates (self self' : env) (action : list Z)
    (out : step_result) :
  step self action = Ok (self', out) ->
  np_setrow (obs_trajectory self) (trajectory_idx self) action
  = Ok (obs_trajectory self')
  /\ trajectory_idx self' = S (trajectory_idx self)
  /\ info out
     = snd (calc_reward (obs_trajectory self') (S (trajectory_idx self)))
  /\ forall k : string,
       partial_rewards self' !! k =
         match snd (calc_reward (obs_trajectory self')
                                (S (trajectory_idx self))) !! k with
         | Some v =>
             Some (py_add (default py_zero (partial_rewards self !! k)) v)
         | None => partial_rewards self !! k
         end.
Proof.
  intros Hstep.
  apply step_inv in Hstep as (traj & Hset & -> & ->). simpl.
  do 3 (split; [done|]). intros k. apply accumulate_lookup.
Qed.

(** C10. [render] changes nothing of the object, whatever the mode: the
    trajectory, the cursor, the total reward and the ledger after the
    call are those before it. *)
Theorem render_keeps_state (self : env) (mode : string) (now : struct_time) :
  let self' := fst (render self mode now) in
  self' = self
  /\ obs_trajectory self' = obs_trajectory self
  /\ trajectory_idx self' = trajectory_idx self
  /\ total_reward self' = total_reward self
  /\ partial_rewards self' = partial_rewards self.
Proof. by repeat split. Qed.

(** *** Re-scoring a finished trajectory *)

Lemma rescore_loop (trajectory : ndarray) (ts : list nat) (total : num)
    (total_info : gmap string num) :
  foldl (fun '(total_reward, total_info) t =>
           let '(reward, info) := calc_reward trajectory t in
           (py_add total_reward reward, merge_info total_info info))
        (total, total_info) ts
  = (foldl py_add total ((fun t => fst (calc_reward trajectory t)) <$> ts),
     foldl accumulate total_info ((fun t => snd (calc_reward trajectory t)) <$> ts)).
Proof.
  revert total total_info. induction ts as [|t ts IH]; intros total total_info.
  - reflexivity.
  - simpl. destruct (calc_reward trajectory t) as [r i]. apply IH.
Qed.

Lemma rescore_sum (trajectory : ndarray) :
  rescore trajectory
  = (foldl py_add py_zero
       ((fun t => fst (calc_reward trajectory t))
          <$> seq 1 (length trajectory - 1)),
     foldl accumulate ∅
       ((fun t => snd (calc_reward trajectory t))
          <$> seq 1 (length trajectory - 1))).
Proof. apply rescore_loop. Qed.

Lemma buffer_after_agrees (trajectory : ndarray) (cols n k : nat) :
  (k <= n <= length trajectory)%nat ->
  length (buffer_after (length trajectory) cols (take n trajectory) k)
  = length trajectory
  /\ take k (buffer_after (length trajectory) cols (take n trajectory) k)
     = take k trajectory.
Proof.
  intros Hk. unfold buffer_after. rewrite take_take.
  replace (k `min` n)%nat with k by lia. split.
  - rewrite length_app, length_take, length_replicate. lia.
  - rewrite take_app_length'; [done|]. rewrite length_take. lia.
Qed.

(** What the first [length trajectory - 1] live steps return is what the
    loop of [save_midi] computes, when the reward function reads the
    rows below the cursor only. *)
Lemma live_scores (self self' : env) (trajectory : ndarray)
    (outs : list step_result) :
  prefix_local ->
  max_trajectory_len self = length trajectory ->
  Forall (fun row => storable self row = true) trajectory ->
  run (fst (reset self)) (take (length trajectory - 1) trajectory)
  = Ok (self', outs) ->
  reward <$> outs
  = (fun t => fst (calc_reward trajectory t)) <$> seq 1 (length trajectory - 1)
  /\ info <$> outs
     = (fun t => snd (calc_reward trajectory t)) <$> seq 1 (length trajectory - 1).
Proof.
  intros Hlocal Hmax Hst Hrun.
  destruct (run_flags _ _ _ _ Hrun) as [Hlen _].
  rewrite length_take in Hlen.
  destruct (run_filled (take (length trajectory - 1) trajectory)
              (fst (reset self)) [] (reset_filled self))
    as (self2 & outs2 & Hrun2 & _ & _ & _ & Houts).
  { by apply Forall_take. }
  { simpl. rewrite length_take. lia. }
  rewrite Hrun in Hrun2. inversion Hrun2; subst self2 outs2. simpl in Houts.
  assert (forall k out, outs !! k = Some out ->
            (reward out, info out) = calc_reward trajectory (S k)) as Hscore.
  { intros k out Hk. destruct (Houts _ _ Hk) as [Hob ->].
    apply lookup_lt_Some in Hk as Hlt.
    rewrite Hob, Hmax.
    destruct (buffer_after_agrees trajectory (num_pitches self)
                (length trajectory - 1) (S k)) as [Hl Ht]; [lia|].
    by apply Hlocal. }
  split; apply list_eq; intros k; rewrite !list_lookup_fmap.
  all: destruct (outs !! k) as [out|] eqn:Hk.
  all: try (apply lookup_lt_Some in Hk as Hlt; rewrite lookup_seq_lt by lia;
            simpl; by rewrite <- (Hscore _ _ Hk)).
  all: apply lookup_ge_None_1 in Hk; by rewrite lookup_seq_ge by lia.
Qed.

(** What the loop of [save_midi] does reproduce.  Its total and merged
    info are the sums of [rescore_sum], over the cursors
    [1 .. length trajectory - 1]; when the reward function reads the rows
    below the cursor only, they are the [total_reward] and the ledger of
    an object that took all the rows but the last as actions after a
    reset, so that the score of the last step alone is missing. *)
Theorem save_midi_rescoring (self : env) (trajectory : ndarray)
    (savedir : option string) (now : struct_time) :
  prefix_local ->
  max_trajectory_len self = length trajectory ->
  Forall (fun row => storable self row = true) trajectory ->
  exists self' outs rest,
    run (fst (reset self)) (take (length trajectory - 1) trajectory)
    = Ok (self', outs)
    /\ fst (rescore trajectory)
       = foldl py_add py_zero
           ((fun t => fst (calc_reward trajectory t))
              <$> seq 1 (length trajectory - 1))
    /\ snd (rescore trajectory)
       = foldl accumulate ∅
           ((fun t => snd (calc_reward trajectory t))
              <$> seq 1 (length trajectory - 1))
    /\ rescore trajectory = (total_reward self', partial_rewards self')
    /\ save_midi trajectory savedir now
       = Print "Total reward" (VNum (total_reward self'))
           :: Print "Info" (VDict (partial_rewards self')) :: rest.
Proof.
  intros Hlocal Hmax Hst.
  destruct (run_filled (take (length trajectory - 1) trajectory)
              (fst (reset self)) [] (reset_filled self))
    as (self' & outs & Hrun & _).
  { by apply Forall_take. }
  { simpl. rewrite length_take. lia. }
  destruct (live_scores _ _ _ _ Hlocal Hmax Hst Hrun) as [Hrew Hinfo].
  assert (rescore trajectory = (total_reward self', partial_rewards self'))
    as Hsame.
  { rewrite rescore_sum, <- Hrew, <- Hinfo.
    by rewrite (run_total_reward _ _ _ _ Hrun), (run_partial_rewards _ _ _ _ Hrun). }
  eexists self', outs, _. split; [done|].
  rewrite rescore_sum at 1 2. simpl.
  do 2 (split; [done|]). split; [done|].
  unfold save_midi. rewrite Hsame. reflexivity.
Qed.

(** *** The declared spaces *)

Lemma in_bounds_spec (b : Box) (x : Z) :
  in_bounds b x = true <-> low b <= x <= high b.
Proof. unfold in_bounds. rewrite andb_true_iff, !Z.leb_le. tauto. Qed.

Lemma forallb_Forall {A : Type} (f : A -> bool) (P : A -> Prop) (l : list A) :
  (forall x, f x = true <-> P x) ->
  forallb f l = true <-> Forall P l.
Proof.
  intros Hf. induction l as [|x l IH]; simpl.
  - split; [constructor|done].
  - rewrite andb_true_iff, Forall_cons, Hf, IH. tauto.
Qed.

(** C8, as the program has it.  The action space that the constructor
    declares is the box of shape [(num_pitches,)] with bounds 0 and 37,
    the observation space the box of shape
    [(max_trajectory_len, num_pitches)] with the same bounds; a box holds
    its two bounds, so that the entries range over 0..37. *)
Theorem declared_spaces (n p : nat) (d : option string) :
  let self := __init__ n p d in
  action_space self = mkBox 0 37 [p]
  /\ observation_space self = mkBox 0 37 [n; p]
  /\ (forall a : list Z,
        contains_vec (action_space self) a = true
        <-> length a = p /\ Forall (fun x => 0 <= x <= 37) a)
  /\ (forall ob : ndarray,
        contains_mat (observation_space self) ob = true
        <-> length ob = n
            /\ Forall (fun row => length row = p
                                  /\ Forall (fun x => 0 <= x <= 37) row) ob).
Proof.
  simpl. do 2 (split; [done|]). split.
  - intros a. unfold contains_vec. simpl.
    rewrite andb_true_iff, Nat.eqb_eq.
    by rewrite (forallb_Forall _ (fun x => 0 <= x <= 37)) by apply in_bounds_spec.
  - intros ob. unfold contains_mat. simpl.
    rewrite andb_true_iff, Nat.eqb_eq.
    rewrite (forallb_Forall _
               (fun row => length row = p /\ Forall (fun x => 0 <= x <= 37) row));
      [done|].
    intros row. rewrite andb_true_iff, Nat.eqb_eq.
    by rewrite (forallb_Forall _ (fun x => 0 <= x <= 37)) by apply in_bounds_spec.
Qed.

(** An action of the declared action space is stored as it is. *)
Lemma valid_action_storable (self : env) (action : list Z) :
  well_formed self ->
  contains_vec (action_space self) action = true ->
  storable self action = true.
Proof.
  intros (_ & _ & Hspace & _). rewrite Hspace. unfold contains_vec, storable.
  simpl. rewrite !andb_true_iff. intros [-> Hall]. split; [done|].
  rewrite forallb_forall in Hall. apply forallb_forall. intros x Hx.
  apply Hall, in_bounds_spec in Hx. simpl in Hx.
  unfold int64_ok. apply andb_true_iff.
  split; [apply Z.leb_le|apply Z.ltb_lt]; lia.
Qed.

(** *** The files written *)

Lemma append_empty_r (s : string) : (s ++ "")%string = s.
Proof.
  induction s as [|c s IH]; [done|].
  change (String c (s ++ "")%string = String c s). by rewrite IH.
Qed.

Lemma stamp_save_midi (t : struct_time) :
  strftime mktime "%m-%d-%y_%H%M" t
  = (two_digits (tm_mon t) ++ "-" ++ two_digits (tm_mday t) ++ "-"
     ++ two_digits (tm_year t mod 100) ++ "_"
     ++ two_digits (tm_hour t) ++ two_digits (tm_min t))%string.
Proof. simpl. by rewrite append_empty_r. Qed.

Lemma stamp_render (t : struct_time) :
  strftime mktime "%m-%d-%y_%H%M%s" t
  = (two_digits (tm_mon t) ++ "-" ++ two_digits (tm_mday t) ++ "-"
     ++ two_digits (tm_year t mod 100) ++ "_"
     ++ two_digits (tm_hour t) ++ two_digits (tm_min t)
     ++ NilZero.string_of_int (Z.to_int (mktime t)))%string.
Proof. simpl. by rewrite append_empty_r. Qed.

(** [save_midi] writes one file, named after month, day, year, hour and
    minute and the number of rows, when a directory is given, and none
    otherwise. *)
Lemma save_midi_files (trajectory : ndarray) (savedir : option string)
    (now : struct_time) :
  files_written (save_midi trajectory savedir now)
  = if truthy savedir then
      [ path_join (default "" savedir)
          (midi_fname (strftime mktime "%m-%d-%y_%H%M" now) (length trajectory)) ]
    else [].
Proof.
  unfold save_midi. destruct (rescore trajectory) as [r i].
  by destruct (truthy savedir).
Qed.

(** [render] writes one file when a directory is configured, and none
    otherwise; its name has the seconds since the Epoch after the
    minute. *)
Lemma render_files (self : env) (mode : string) (now : struct_time) :
  files_written (snd (render self mode now))
  = if truthy (midi_savedir self) then
      [ path_join (default "" (midi_savedir self))
          (midi_fname (strftime mktime "%m-%d-%y_%H%M%s" now)
                      (length (obs_trajectory self))) ]
    else [].
Proof. unfold render. simpl. by destruct (truthy (midi_savedir self)). Qed.

Lemma append_assoc (s1 s2 s3 : string) :
  ((s1 ++ s2) ++ s3)%string = (s1 ++ s2 ++ s3)%string.
Proof.
  induction s1 as [|c s1 IH]; [done|].
  change (String c ((s1 ++ s2) ++ s3)%string = String c (s1 ++ s2 ++ s3)%string).
  by rewrite IH.
Qed.

Lemma append_length (s1 s2 : string) :
  String.length (s1 ++ s2)%string = (String.length s1 + String.length s2)%nat.
Proof.
  induction s1 as [|c s1 IH]; [done|].
  change (S (String.length (s1 ++ s2)%string)
          = S (String.length s1 + String.length s2)).
  by rewrite IH.
Qed.

Lemma append_same_l (s1 s2 s3 : string) :
  (s1 ++ s2)%string = (s1 ++ s3)%string -> s2 = s3.
Proof. apply (inj (String.append s1)). Qed.

Lemma seconds_not_empty (z : Z) :
  NilZero.string_of_int (Z.to_int z) <> EmptyString.
Proof.
  destruct (Z.to_int z) as [d|d]; [|discriminate].
  by destruct d.
Qed.

Lemma path_join_same_dir (dir f1 f2 : string) :
  startswith_sep f1 = false -> startswith_sep f2 = false ->
  path_join dir f1 = path_join dir f2 -> f1 = f2.
Proof.
  unfold path_join. intros -> ->.
  destruct (bool_decide (dir = EmptyString) || endswith_sep dir); intros Heq.
  - by apply append_same_l in Heq.
  - by do 2 apply append_same_l in Heq.
Qed.

(** Whatever the directory and the time, the file that [render] writes
    is not the one that [save_midi] writes for the same trajectory. *)
Lemma render_fname_never_plain (self : env) (mode : string) (now : struct_time) :
  truthy (midi_savedir self) = true ->
  files_written (snd (render self mode now))
  <> files_written (save_midi (obs_trajectory self) (midi_savedir self) now).
Proof.
  intros Hdir. rewrite render_files, save_midi_files, Hdir.
  rewrite stamp_render, stamp_save_midi.
  intros Heq. inversion Heq as [Hpath]. clear Heq.
  apply path_join_same_dir in Hpath; [|reflexivity..].
  unfold midi_fname in Hpath.
  rewrite !append_assoc in Hpath.
  do 9 apply append_same_l in Hpath.
  apply (f_equal String.length) in Hpath. rewrite append_length in Hpath.
  destruct (NilZero.string_of_int (Z.to_int (mktime now))) eqn:Hsec;
    [by apply seconds_not_empty in Hsec|].
  simpl in Hpath. lia.
Qed.

End Properties.

(** ** Further behaviour of the environment *)

Section Behaviour.

Context `{Collaborators}.

(** *** Which actions [step] accepts *)

Lemma np_setrow_ok (a : ndarray) (i : nat) (v : list Z) :
  (exists a', np_setrow a i v = Ok a')
  <-> exists row,
        a !! i = Some row
        /\ forallb int64_ok v = true
        /\ (length v = length row \/ length v = 1%nat).
Proof.
  unfold np_setrow. split.
  - intros [a' Hset]. destruct (a !! i) as [row|]; [|discriminate].
    exists row. split; [done|].
    destruct (forallb int64_ok v); [|discriminate]. split; [done|].
    simpl in Hset.
    destruct (length v =? length row)%nat eqn:Hlen;
      [left; by apply Nat.eqb_eq|].
    destruct (length v =? 1)%nat eqn:Hone; [|discriminate].
    right. by apply Nat.eqb_eq.
  - intros (row & -> & -> & Hlen). simpl.
    destruct (length v =? length row)%nat eqn:Hrow; [by eexists|].
    destruct Hlen as [Hlen|Hlen].
    + apply Nat.eqb_neq in Hrow. done.
    + rewrite Hlen. simpl. by eexists.
Qed.

Lemma well_formed_row (self : env) (k : nat) :
  well_formed self ->
  (k < max_trajectory_len self)%nat ->
  exists row, obs_trajectory self !! k = Some row
              /\ length row = num_pitches self.
Proof.
  intros (Hlen & Hrows & _) Hk.
  destruct (lookup_lt_is_Some_2 (obs_trajectory self) k) as [row Hrow]; [lia|].
  exists row. split; [done|]. apply (Forall_lookup_1 _ _ _ _ Hrows Hrow).
Qed.

Lemma step_raises (self : env) (action : list Z) (e : exn) :
  np_setrow (obs_trajectory self) (trajectory_idx self) action = Raise e ->
  step self action = Raise e.
Proof. intros Hset. unfold step. by rewrite Hset. Qed.

Lemma reachable_cursor_le (self : env) :
  reachable self -> (trajectory_idx self <= max_trajectory_len self)%nat.
Proof.
  induction 1 as [n p d|self _ IH|self action self' out Hreach IH Hstep|self mode now _ IH];
    simpl; [lia|lia| |done].
  destruct (reachable_well_formed _ Hreach) as (Hlen & _).
  apply step_inv in Hstep as (traj & Hset & -> & _). simpl.
  assert (exists a', np_setrow (obs_trajectory self) (trajectory_idx self) action
                     = Ok a') as Hok by by exists traj.
  apply np_setrow_ok in Hok as (row & Hrow & _).
  apply lookup_lt_Some in Hrow. lia.
Qed.

(** X1. In a reachable state [step] returns exactly when the cursor is
    below [max_trajectory_len], every entry of the action is a machine
    integer, and the action has [num_pitches] entries or one entry. *)
Theorem step_accepts_iff (self : env) (action : list Z) :
  reachable self ->
  (exists self' out, step self action = Ok (self', out))
  <-> (trajectory_idx self < max_trajectory_len self)%nat
      /\ forallb int64_ok action = true
      /\ (length action = num_pitches self \/ length action = 1%nat).
Proof.
  intros Hreach. pose proof (reachable_well_formed _ Hreach) as Hwf.
  pose proof Hwf as (Hlen & _). split.
  - intros (self' & out & Hstep).
    apply step_inv in Hstep as (traj & Hset & _).
    assert (exists a', np_setrow (obs_trajectory self) (trajectory_idx self) action
                       = Ok a') as Hok by by exists traj.
    apply np_setrow_ok in Hok as (row & Hrow & Hfit & Hshape).
    apply lookup_lt_Some in Hrow as Hlt. rewrite Hlen in Hlt.
    destruct (well_formed_row self _ Hwf Hlt) as (row' & Hrow' & Hcols).
    rewrite Hrow in Hrow'. inversion Hrow'; subst row'.
    split; [done|]. split; [done|]. by rewrite <- Hcols.
  - intros (Hlt & Hfit & Hshape).
    destruct (well_formed_row self _ Hwf Hlt) as (row & Hrow & Hcols).
    destruct (proj2 (np_setrow_ok (obs_trajectory self) (trajectory_idx self) action))
      as [traj Hset].
    { exists row. by rewrite Hcols. }
    by apply step_ok in Hset.
Qed.

(** X2. There is no check of the cursor in [step]: once a reachable
    object has its cursor at [max_trajectory_len] or beyond, every
    further [step] raises [IndexError], whatever the action. *)
Theorem step_past_end_raises (self : env) (action : list Z) :
  reachable self ->
  (max_trajectory_len self <= trajectory_idx self)%nat ->
  step self action = Raise IndexError.
Proof.
  intros Hreach Hge. destruct (reachable_well_formed _ Hreach) as (Hlen & _).
  apply step_raises. unfold np_setrow.
  by rewrite lookup_ge_None_2 by lia.
Qed.

(** X3. In a reachable state with the cursor below
    [max_trajectory_len], an action of machine integers whose length is
    neither [num_pitches] nor 1 makes [step] raise [ValueError]. *)
Theorem step_wrong_length_raises (self : env) (action : list Z) :
  reachable self ->
  (trajectory_idx self < max_trajectory_len self)%nat ->
  forallb int64_ok action = true ->
  length action <> num_pitches self ->
  length action <> 1%nat ->
  step self action = Raise ValueError.
Proof.
  intros Hreach Hlt Hfit Hne Hne1.
  destruct (well_formed_row self _ (reachable_well_formed _ Hreach) Hlt)
    as (row & Hrow & Hcols).
  apply step_raises. unfold np_setrow. rewrite Hrow, Hfit. simpl.
  rewrite Hcols.
  apply Nat.eqb_neq in Hne, Hne1. by rewrite Hne, Hne1.
Qed.

(** X4. In a reachable state with the cursor below
    [max_trajectory_len], an action with an entry outside of the 64-bit
    integers makes [step] raise [OverflowError]. *)
Theorem step_overflow_raises (self : env) (action : list Z) :
  reachable self ->
  (trajectory_idx self < max_trajectory_len self)%nat ->
  forallb int64_ok action = false ->
  step self action = Raise OverflowError.
Proof.
  intros Hreach Hlt Hfit.
  destruct (well_formed_row self _ (reachable_well_formed _ Hreach) Hlt)
    as (row & Hrow & _).
  apply step_raises. unfold np_setrow. by rewrite Hrow, Hfit.
Qed.

(** X5. A one-element action is broadcast: in a reachable state with the
    cursor below [max_trajectory_len], [step] on [[x]] returns and the
    row at the cursor holds [x] for each of the [num_pitches] pitches. *)
Theorem step_broadcasts (self : env) (x : Z) :
  reachable self ->
  (trajectory_idx self < max_trajectory_len self)%nat ->
  int64_ok x = true ->
  exists self' out,
    step self [x] = Ok (self', out)
    /\ obs_trajectory self' !! trajectory_idx self
       = Some (replicate (num_pitches self) x)
    /\ observation out = obs_trajectory self'.
Proof.
  intros Hreach Hlt Hfit.
  destruct (well_formed_row self _ (reachable_well_formed _ Hreach) Hlt)
    as (row & Hrow & Hcols).
  assert (exists traj,
            np_setrow (obs_trajectory self) (trajectory_idx self) [x] = Ok traj
            /\ traj !! trajectory_idx self = Some (replicate (num_pitches self) x))
    as (traj & Hset & Hat).
  { unfold np_setrow. rewrite Hrow.
    replace (forallb int64_ok [x]) with true by (simpl; by rewrite Hfit).
    apply lookup_lt_Some in Hrow as Hin. cbn [negb].
    destruct (length [x] =? length row)%nat eqn:Hone.
    - apply Nat.eqb_eq in Hone. eexists. split; [done|].
      rewrite list_lookup_insert_eq by done.
      by rewrite <- Hcols, <- Hone.
    - rewrite Nat.eqb_refl. eexists. split; [done|].
      rewrite list_lookup_insert_eq by done. by rewrite Hcols. }
  destruct (step_ok _ _ _ Hset) as (self' & out & Hstep).
  exists self', out. split; [done|].
  apply step_inv in Hstep as (traj' & Hset' & -> & ->).
  rewrite Hset in Hset'. inversion Hset'; subst traj'. by simpl.
Qed.

(** *** What [step] leaves alone *)

Lemma np_setrow_frame (a a' : ndarray) (i : nat) (v : list Z) :
  np_setrow a i v = Ok a' ->
  length a' = length a /\ forall k, k <> i -> a' !! k = a !! k.
Proof.
  unfold np_setrow. intros Hset.
  destruct (a !! i) as [row|]; [|discriminate].
  destruct (negb (forallb int64_ok v)); [discriminate|].
  destruct (length v =? length row)%nat;
    [|destruct (length v =? 1)%nat; [|discriminate]].
  all: inversion Hset; subst a'.
  all: split; [apply length_insert|].
  all: intros k Hk; by apply list_lookup_insert_ne.
Qed.

(** X6. A call of [step] that returns touches one row only: the buffer
    keeps its number of rows, every row but the one at the old cursor is
    as before, the cursor is one more, and the configuration and the
    declared spaces are as before. *)
Theorem step_only_cursor_row (self self' : env) (action : list Z)
    (out : step_result) :
  step self action = Ok (self', out) ->
  length (obs_trajectory self') = length (obs_trajectory self)
  /\ (forall k, k <> trajectory_idx self ->
        obs_trajectory self' !! k = obs_trajectory self !! k)
  /\ trajectory_idx self' = S (trajectory_idx self)
  /\ max_trajectory_len self' = max_trajectory_len self
  /\ num_pitches self' = num_pitches self
  /\ midi_savedir self' = midi_savedir self
  /\ action_space self' = action_space self
  /\ observation_space self' = observation_space self.
Proof.
  intros Hstep. apply step_inv in Hstep as (traj & Hset & -> & _). simpl.
  destruct (np_setrow_frame _ _ _ _ Hset) as [Hlen Hother].
  by repeat split.
Qed.

(** *** What holds in every reachable state *)

(** X7. In every state that an object can reach, whatever the actions
    were, the buffer has [max_trajectory_len] rows of [num_pitches]
    entries each, the cursor is at most [max_trajectory_len], and the
    spaces are the ones declared at construction. *)
Theorem reachable_invariants (self : env) :
  reachable self ->
  length (obs_trajectory self) = max_trajectory_len self
  /\ Forall (fun row => length row = num_pitches self) (obs_trajectory self)
  /\ (trajectory_idx self <= max_trajectory_len self)%nat
  /\ action_space self = mkBox 0 37 [num_pitches self]
  /\ observation_space self
     = mkBox 0 37 [max_trajectory_len self; num_pitches self].
Proof.
  intros Hreach.
  destruct (reachable_well_formed _ Hreach) as (Hlen & Hrows & Ha & Ho).
  pose proof (reachable_cursor_le _ Hreach). by repeat split.
Qed.

(** X8. For a step taken in a reachable state, [terminated] is returned
    true exactly when the cursor after the step is
    [max_trajectory_len]: the test [>=] of the program never sees a
    cursor beyond it. *)
Theorem terminated_iff_full (self self' : env) (action : list Z)
    (out : step_result) :
  reachable self ->
  step self action = Ok (self', out) ->
  (terminated out = true
   <-> trajectory_idx self' = max_trajectory_len self')
  /\ truncated out = false.
Proof.
  intros Hreach Hstep.
  assert (reachable self') as Hreach' by by eapply reach_step.
  apply reachable_cursor_le in Hreach'.
  apply step_inv in Hstep as (traj & _ & -> & ->). simpl in *.
  split; [|done]. rewrite Nat.leb_le. lia.
Qed.

Lemma run_reachable (actions : list (list Z)) (self self' : env)
    (outs : list step_result) :
  reachable self -> run self actions = Ok (self', outs) -> reachable self'.
Proof.
  revert self outs. induction actions as [|action rest IH]; intros self outs Hreach Hrun.
  - by inversion Hrun; subst.
  - apply run_cons_inv in Hrun as (self1 & out & outs' & Hstep & Hrest & ->).
    eapply IH; [|exact Hrest]. by eapply reach_step.
Qed.

Lemma run_cursor (actions : list (list Z)) (self self' : env)
    (outs : list step_result) :
  run self actions = Ok (self', outs) ->
  trajectory_idx self' = (trajectory_idx self + length actions)%nat
  /\ max_trajectory_len self' = max_trajectory_len self.
Proof.
  revert self outs. induction actions as [|action rest IH]; intros self outs Hrun.
  - inversion Hrun; subst. simpl. split; [lia|done].
  - apply run_cons_inv in Hrun as (self1 & out & outs' & Hstep & Hrest & ->).
    destruct (IH _ _ Hrest) as [-> ->].
    apply step_inv in Hstep as (traj & _ & -> & _). simpl. split; [lia|done].
Qed.

(** X9. An episode never has more steps than [max_trajectory_len]:
    whenever, after a reset of a reachable object, a sequence of calls
    of [step] has all returned, there were at most [max_trajectory_len]
    of them, and the cursor counts them. *)
Theorem episode_length_bounded (self self' : env) (actions : list (list Z))
    (outs : list step_result) :
  reachable self ->
  run (fst (reset self)) actions = Ok (self', outs) ->
  (length actions <= max_trajectory_len self)%nat
  /\ length outs = length actions
  /\ trajectory_idx self' = length actions.
Proof.
  intros Hreach Hrun.
  destruct (run_cursor _ _ _ _ Hrun) as [Hidx Hmax]. simpl in Hidx, Hmax.
  destruct (run_flags _ _ _ _ Hrun) as [Hlen _].
  assert (reachable self') as Hreach'.
  { eapply run_reachable; [|exact Hrun]. by apply reach_reset. }
  apply reachable_cursor_le in Hreach'. repeat split; [lia|done..].
Qed.

(** *** The keys of the ledger *)

Lemma accumulate_dom (ledger info : gmap string num) :
  dom (accumulate ledger info) = dom ledger ∪ dom info.
Proof.
  apply set_eq. intros k.
  rewrite elem_of_union, !elem_of_dom, accumulate_lookup.
  destruct (info !! k) as [v|].
  - split; [intros _; right; by eexists|intros _; by eexists].
  - split; [by left|intros [Hk|[v Hv]]; [done|discriminate]].
Qed.

(** X10. The ledger gets its keys lazily: after a call of [step] that
    returns, its keys are those it had before and those of the info
    that the call returned. *)
Theorem ledger_keys_after_step (self self' : env) (action : list Z)
    (out : step_result) :
  step self action = Ok (self', out) ->
  dom (partial_rewards self') = dom (partial_rewards self) ∪ dom (info out).
Proof.
  intros Hstep. apply step_inv in Hstep as (traj & _ & -> & ->). simpl.
  apply accumulate_dom.
Qed.

Lemma run_ledger_keys (actions : list (list Z)) (self self' : env)
    (outs : list step_result) (k : string) :
  run self actions = Ok (self', outs) ->
  k ∈ dom (partial_rewards self')
  <-> k ∈ dom (partial_rewards self)
      \/ exists out, out ∈ outs /\ k ∈ dom (info out).
Proof.
  revert self outs. induction actions as [|action rest IH]; intros self outs Hrun.
  - inversion Hrun; subst. split; [by left|].
    intros [Hk|(out & Hin & _)]; [done|]. by apply elem_of_nil in Hin.
  - apply run_cons_inv in Hrun as (self1 & out & outs' & Hstep & Hrest & ->).
    rewrite (IH _ _ Hrest).
    apply step_inv in Hstep as (traj & _ & -> & ->). simpl.
    rewrite accumulate_dom, elem_of_union.
    set (i := snd (calc_reward traj (S (trajectory_idx self)))).
    split.
    + intros [[Hk|Hk]|(out' & Hin & Hk)].
      * by left.
      * right. eexists. split; [apply list_elem_of_here|done].
      * right. exists out'. split; [by apply list_elem_of_further|done].
    + intros [Hk|(out' & Hin & Hk)]; [by left; left|].
      apply elem_of_cons in Hin as [->|Hin].
      * left. by right.
      * right. by exists out'.
Qed.

(** X11. At any point of an episode the keys of the ledger are exactly
    the keys of the infos that [step] has returned since the last
    reset. *)
Theorem ledger_keys_of_episode (self self' : env) (actions : list (list Z))
    (outs : list step_result) (k : string) :
  run (fst (reset self)) actions = Ok (self', outs) ->
  k ∈ dom (partial_rewards self')
  <-> exists out, out ∈ outs /\ k ∈ dom (info out).
Proof.
  intros Hrun. rewrite (run_ledger_keys _ _ _ _ k Hrun). simpl.
  rewrite dom_empty_L. split; [|by right].
  intros [Hk|Hk]; [|done]. by apply elem_of_empty in Hk.
Qed.

Lemma run_ledger_entry (actions : list (list Z)) (self self' : env)
    (outs : list step_result) (k : string) :
  run self actions = Ok (self', outs) ->
  partial_rewards self' !! k =
    match omap (fun out => info out !! k) outs with
    | [] => partial_rewards self !! k
    | vs => Some (foldl py_add (default py_zero (partial_rewards self !! k)) vs)
    end.
Proof.
  revert self outs. induction actions as [|action rest IH]; intros self outs Hrun.
  - by inversion Hrun; subst.
  - apply run_cons_inv in Hrun as (self1 & out & outs' & Hstep & Hrest & ->).
    rewrite (IH _ _ Hrest).
    apply step_inv in Hstep as (traj & _ & -> & ->). simpl.
    rewrite accumulate_lookup.
    destruct (snd (calc_reward traj (S (trajectory_idx self))) !! k) as [v|];
      simpl; [|done].
    change (list_omap _ _ ?f ?l) with (omap f l).
    by destruct (omap (fun out => info out !! k) outs').
Qed.

(** X12. At any point of an episode the ledger entry of a key is the sum,
    taken from 0 in the order of the calls, of the values that the infos
    returned since the last reset hold for this key, and there is no
    entry when none of them holds the key. *)
Theorem ledger_entry_is_sum (self self' : env) (actions : list (list Z))
    (outs : list step_result) (k : string) :
  run (fst (reset self)) actions = Ok (self', outs) ->
  partial_rewards self' !! k =
    match omap (fun out => info out !! k) outs with
    | [] => None
    | vs => Some (foldl py_add py_zero vs)
    end.
Proof.
  intros Hrun. rewrite (run_ledger_entry _ _ _ _ k Hrun). simpl.
  by rewrite lookup_empty.
Qed.

(** *** Actions, observations and the declared spaces *)

Lemma contains_vec_spec (self : env) (a : list Z) :
  well_formed self ->
  contains_vec (action_space self) a = true
  <-> length a = num_pitches self /\ Forall (fun x => 0 <= x <= 37) a.
Proof.
  intros (_ & _ & -> & _). unfold contains_vec. simpl.
  rewrite andb_true_iff, Nat.eqb_eq.
  by rewrite (forallb_Forall _ (fun x => 0 <= x <= 37)) by apply in_bounds_spec.
Qed.

Lemma contains_mat_spec (self : env) (ob : ndarray) :
  well_formed self ->
  contains_mat (observation_space self) ob = true
  <-> length ob = max_trajectory_len self
      /\ Forall (fun row => length row = num_pitches self
                            /\ Forall (fun x => 0 <= x <= 37) row) ob.
Proof.
  intros (_ & _ & _ & ->). unfold contains_mat. simpl.
  rewrite andb_true_iff, Nat.eqb_eq.
  rewrite (forallb_Forall _
             (fun row => length row = num_pitches self
                         /\ Forall (fun x => 0 <= x <= 37) row)); [done|].
  intros row. rewrite andb_true_iff, Nat.eqb_eq.
  by rewrite (forallb_Forall _ (fun x => 0 <= x <= 37)) by apply in_bounds_spec.
Qed.

Lemma step_well_formed (self self' : env) (action : list Z) (out : step_result) :
  well_formed self -> step self action = Ok (self', out) -> well_formed self'.
Proof.
  intros (Hlen & Hrows & Ha & Ho) Hstep.
  apply step_inv in Hstep as (traj & Hset & -> & _).
  destruct (np_setrow_shape _ _ _ _ _ Hset Hrows) as [Hlen' Hrows'].
  repeat split; simpl; [congruence|done..].
Qed.

(** A step on an action of [num_pitches] machine integers, in a
    well-formed state with the cursor inside the buffer. *)
Lemma step_stores (self : env) (action : list Z) :
  well_formed self ->
  (trajectory_idx self < max_trajectory_len self)%nat ->
  storable self action = true ->
  exists self' out,
    step self action = Ok (self', out)
    /\ obs_trajectory self'
       = <[trajectory_idx self := action]> (obs_trajectory self)
    /\ observation out = obs_trajectory self'.
Proof.
  intros Hwf Hlt Hst.
  destruct (well_formed_row self _ Hwf Hlt) as (row & Hrow & Hcols).
  apply andb_prop in Hst as [Hp Hfit]. apply Nat.eqb_eq in Hp.
  assert (np_setrow (obs_trajectory self) (trajectory_idx self) action
          = Ok (<[trajectory_idx self := action]> (obs_trajectory self))) as Hset.
  { eapply np_setrow_fits; [exact Hrow|congruence|done]. }
  destruct (step_ok _ _ _ Hset) as (self' & out & Hstep).
  exists self', out. split; [done|].
  apply step_inv in Hstep as (traj & Hset' & -> & ->).
  rewrite Hset in Hset'. by inversion Hset'; subst traj.
Qed.

Lemma run_in_space (actions : list (list Z)) (self self' : env)
    (outs : list step_result) :
  well_formed self ->
  contains_mat (observation_space self) (obs_trajectory self) = true ->
  Forall (fun action => contains_vec (action_space self) action = true) actions ->
  run self actions = Ok (self', outs) ->
  Forall (fun out => contains_mat (observation_space self) (observation out) = true)
         outs.
Proof.
  revert self outs.
  induction actions as [|action rest IH]; intros self outs Hwf Hin Hvalid Hrun.
  - inversion Hrun; subst. constructor.
  - apply run_cons_inv in Hrun as (self1 & out & outs' & Hstep & Hrest & ->).
    apply Forall_cons in Hvalid as [Hvalid Hvalid'].
    pose proof (step_well_formed _ _ _ _ Hwf Hstep) as Hwf1.
    assert (exists traj, step self action = Ok (self1, out)
              /\ obs_trajectory self1 = traj /\ observation out = traj
              /\ action_space self1 = action_space self
              /\ observation_space self1 = observation_space self
              /\ traj = <[trajectory_idx self := action]> (obs_trajectory self))
      as (traj & _ & Htraj & Hob & Ha & Ho & Hins).
    { pose proof Hstep as Hstep'.
      apply step_inv in Hstep' as (traj & Hset & -> & ->).
      exists traj. do 5 (split; [done|]).
      assert (exists a', np_setrow (obs_trajectory self) (trajectory_idx self)
                           action = Ok a') as Hok by by exists traj.
      apply np_setrow_ok in Hok as (row & Hrow & Hfit & _).
      apply lookup_lt_Some in Hrow as Hlt. pose proof Hwf as (Hlen & Hrows & _).
      pose proof (Forall_lookup_1 _ _ _ _ Hrows Hrow) as Hcols.
      apply (contains_vec_spec self action) in Hvalid as [Hp _]; [|done].
      rewrite (np_setrow_fits _ _ row) in Hset by (done || congruence).
      by inversion Hset. }
    assert (contains_mat (observation_space self) traj = true) as Hin1.
    { apply (contains_mat_spec self) in Hin as [Hlen Hall]; [|done].
      apply (contains_vec_spec self) in Hvalid; [|done].
      apply (contains_mat_spec self); [done|]. rewrite Hins.
      split; [by rewrite length_insert|]. by apply Forall_insert. }
    constructor; [by rewrite Hob|].
    rewrite <- Ho. apply (IH self1 outs' Hwf1); [by rewrite Ho, Htraj| |done].
    by rewrite Ha.
Qed.

(** X13. As long as the actions come from the declared action space, the
    observations stay in the declared observation space: after a reset
    of a reachable object the observation that [reset] returns and the
    observation of every step belong to it. *)
Theorem observations_stay_in_space (self self' : env)
    (actions : list (list Z)) (outs : list step_result) :
  reachable self ->
  Forall (fun action => contains_vec (action_space self) action = true) actions ->
  run (fst (reset self)) actions = Ok (self', outs) ->
  contains_mat (observation_space self) (fst (snd (reset self))) = true
  /\ Forall (fun out =>
               contains_mat (observation_space self) (observation out) = true)
            outs.
Proof.
  intros Hreach Hvalid Hrun.
  pose proof (reachable_well_formed _ Hreach) as Hwf.
  pose proof (reachable_well_formed _ (reach_reset _ Hreach)) as Hwf0.
  assert (contains_mat (observation_space self) (fst (snd (reset self))) = true)
    as Hzero.
  { apply (contains_mat_spec self); [done|]. simpl. unfold get_initial_ob, np_zeros.
    split; [apply length_replicate|]. apply Forall_replicate.
    split; [apply length_replicate|]. apply Forall_replicate. lia. }
  split; [done|].
  by apply (run_in_space actions (fst (reset self)) self' outs Hwf0).
Qed.

(** X14. [step] does not check the action against the action space: in a
    reachable state with the cursor below [max_trajectory_len], an
    action of [num_pitches] machine integers that is not in the action
    space is stored all the same, and the observation returned is not
    in the observation space. *)
Theorem step_does_not_validate (self : env) (action : list Z) :
  reachable self ->
  (trajectory_idx self < max_trajectory_len self)%nat ->
  storable self action = true ->
  contains_vec (action_space self) action = false ->
  exists self' out,
    step self action = Ok (self', out)
    /\ obs_trajectory self' !! trajectory_idx self = Some action
    /\ contains_mat (observation_space self) (observation out) = false.
Proof.
  intros Hreach Hlt Hst Hout.
  pose proof (reachable_well_formed _ Hreach) as Hwf.
  destruct (step_stores self action Hwf Hlt Hst)
    as (self' & out & Hstep & Htraj & Hob).
  exists self', out. split; [done|].
  pose proof Hwf as (Hlen & _).
  assert (obs_trajectory self' !! trajectory_idx self = Some action) as Hat.
  { rewrite Htraj. apply list_lookup_insert_eq. lia. }
  split; [done|].
  apply not_true_is_false. intros Hin.
  apply (contains_mat_spec self) in Hin as [_ Hall]; [|done].
  rewrite Hob in Hall.
  destruct (Forall_lookup_1 _ _ _ _ Hall Hat) as [Hp Hrange].
  assert (contains_vec (action_space self) action = true) as Hyes
    by by apply (contains_vec_spec self).
  congruence.
Qed.

(** *** [save_midi] and [render] *)

(** X15. On a trajectory with no row or with one row the loop of
    [save_midi] does not run: the total that is printed is 0 and the
    info is empty, whatever the reward function. *)
Theorem save_midi_short_trajectory (trajectory : ndarray)
    (savedir : option string) (now : struct_time) :
  (length trajectory <= 1)%nat ->
  exists rest,
    save_midi trajectory savedir now
    = Print "Total reward" (VNum py_zero) :: Print "Info" (VDict ∅) :: rest.
Proof.
  intros Hlen. unfold save_midi, rescore.
  replace (length trajectory - 1)%nat with 0%nat by lia. simpl. by eexists.
Qed.

Lemma live_scores_upto (self self' : env) (trajectory : ndarray)
    (outs : list step_result) (n : nat) :
  prefix_local ->
  max_trajectory_len self = length trajectory ->
  Forall (fun row => storable self row = true) trajectory ->
  (n <= length trajectory)%nat ->
  run (fst (reset self)) (take n trajectory) = Ok (self', outs) ->
  reward <$> outs = (fun t => fst (calc_reward trajectory t)) <$> seq 1 n
  /\ info <$> outs = (fun t => snd (calc_reward trajectory t)) <$> seq 1 n.
Proof.
  intros Hlocal Hmax Hst Hn Hrun.
  destruct (run_flags _ _ _ _ Hrun) as [Hlen _].
  rewrite length_take in Hlen.
  destruct (run_filled (take n trajectory) (fst (reset self)) []
              (reset_filled self))
    as (self2 & outs2 & Hrun2 & _ & _ & _ & Houts).
  { by apply Forall_take. }
  { simpl. rewrite length_take. lia. }
  rewrite Hrun in Hrun2. inversion Hrun2; subst self2 outs2. simpl in Houts.
  assert (forall k out, outs !! k = Some out ->
            (reward out, info out) = calc_reward trajectory (S k)) as Hscore.
  { intros k out Hk. destruct (Houts _ _ Hk) as [Hob ->].
    apply lookup_lt_Some in Hk as Hlt. rewrite Hob, Hmax.
    destruct (buffer_after_agrees trajectory (num_pitches self) n (S k))
      as [Hl Ht]; [lia|].
    by apply Hlocal. }
  split; apply list_eq; intros k; rewrite !list_lookup_fmap.
  all: destruct (outs !! k) as [out|] eqn:Hk.
  all: try (apply lookup_lt_Some in Hk as Hlt; rewrite lookup_seq_lt by lia;
            simpl; by rewrite <- (Hscore _ _ Hk)).
  all: apply lookup_ge_None_1 in Hk; by rewrite lookup_seq_ge by lia.
Qed.

(** X16. What [save_midi] leaves out is the last score.  For a reward
    function that reads the rows below the cursor only and a trajectory
    with at least one row, an object that took all the rows as actions
    after a reset has as its total reward the total of [save_midi] plus
    the reward of [calc_reward] at the cursor [length trajectory], and as
    its ledger the info of [save_midi] with the info of that call added. *)
Theorem live_total_is_rescore_plus_last (self : env) (trajectory : ndarray) :
  prefix_local ->
  max_trajectory_len self = length trajectory ->
  Forall (fun row => storable self row = true) trajectory ->
  (0 < length trajectory)%nat ->
  exists self' outs,
    run (fst (reset self)) trajectory = Ok (self', outs)
    /\ total_reward self'
       = py_add (fst (rescore trajectory))
                (fst (calc_reward trajectory (length trajectory)))
    /\ partial_rewards self'
       = accumulate (snd (rescore trajectory))
                    (snd (calc_reward trajectory (length trajectory))).
Proof.
  intros Hlocal Hmax Hst Hpos.
  destruct (run_filled trajectory (fst (reset self)) [] (reset_filled self))
    as (self' & outs & Hrun & _); [done|simpl; lia|].
  exists self', outs. split; [done|].
  destruct (live_scores_upto self self' trajectory outs (length trajectory))
    as [Hrew Hinfo]; [done..|by rewrite firstn_all|].
  rewrite (run_total_reward _ _ _ _ Hrun), (run_partial_rewards _ _ _ _ Hrun).
  rewrite Hrew, Hinfo, rescore_sum. simpl.
  destruct (length trajectory) as [|m]; [lia|].
  replace (S m - 1)%nat with m by lia.
  rewrite seq_S, !fmap_app, !foldl_app. by simpl.
Qed.

(** X17. With a non-empty directory [save_midi] writes one file, in this
    directory: its path is the directory, a [/] unless the directory
    ends with one, and the name
    [ts<MM>-<DD>-<YY>_<HH><MM>_ep<rows>.midi] of the local time and the
    number of rows of the trajectory. *)
Theorem save_midi_path (trajectory : ndarray) (dir : string)
    (now : struct_time) :
  dir <> EmptyString ->
  files_written (save_midi trajectory (Some dir) now)
  = [ (dir ++ (if endswith_sep dir then "" else "/")
       ++ "ts" ++ two_digits (tm_mon now) ++ "-" ++ two_digits (tm_mday now)
       ++ "-" ++ two_digits (tm_year now mod 100) ++ "_"
       ++ two_digits (tm_hour now) ++ two_digits (tm_min now)
       ++ "_ep" ++ decimal (length trajectory) ++ ".midi")%string ].
Proof.
  intros Hdir. rewrite save_midi_files. unfold truthy.
  rewrite bool_decide_eq_false_2 by done. cbn [negb default].
  rewrite stamp_save_midi. unfold path_join, midi_fname.
  change (startswith_sep _) with false.
  rewrite bool_decide_eq_false_2 by done. cbn [orb].
  rewrite !append_assoc. unfold id.
  by destruct (endswith_sep dir).
Qed.

(** X18. The file of [render] counts the rows of the whole buffer, not
    the steps taken: in every reachable state with a non-empty directory
    [render] writes one file, whose name ends in
    [_ep<max_trajectory_len>.midi] wherever the cursor is. *)
Theorem render_counts_buffer_rows (self : env) (mode : string)
    (now : struct_time) :
  reachable self ->
  truthy (midi_savedir self) = true ->
  exists stamp,
    files_written (snd (render self mode now))
    = [ path_join (default "" (midi_savedir self))
          ("ts" ++ stamp ++ "_ep" ++ decimal (max_trajectory_len self)
           ++ ".midi")%string ].
Proof.
  intros Hreach Hdir. destruct (reachable_well_formed _ Hreach) as (Hlen & _).
  exists (strftime mktime "%m-%d-%y_%H%M%s" now).
  by rewrite render_files, Hdir, Hlen.
Qed.

End Behaviour.

(** ** The scenario *)

Section Scenario.

#[local] Existing Instance demo.

Lemma demo_prefix_local : prefix_local.
Proof.
  intros tr1 tr2 t _ Htake. simpl. unfold demo_reward. by rewrite Htake.
Qed.

Lemma demo_episode_run :
  run (fst (reset demo_env)) demo_actions
  = Ok (fst demo_episode, snd demo_episode).
Proof. vm_compute. reflexivity. Qed.

Lemma demo_first_step :
  step demo_env [5; 0] = Ok (fst demo_first, snd demo_first).
Proof. vm_compute. reflexivity. Qed.

Lemma demo_storable :
  Forall (fun action => storable demo_env action = true) demo_actions.
Proof. repeat constructor. Qed.

(** The scenario step by step: the buffer and the flag after the first
    and after the fourth step. *)
Example scenario_trace :
  (observation (snd demo_first), terminated (snd demo_first))
  = ([[5; 0]; [0; 0]; [0; 0]; [0; 0]], false)
  /\ obs_trajectory (fst demo_episode) = [[5; 0]; [0; 0]; [7; 1]; [1; 1]]
  /\ terminated <$> snd demo_episode = [false; false; false; true]
  /\ run (fst demo_episode) [[1; 1]] = Raise IndexError.
Proof. repeat split; vm_compute; reflexivity. Qed.

(** With two pitches a one-element action is broadcast over the row, and
    an action of three entries is refused. *)
Example scenario_broadcast :
  (r ← step demo_env [9]; mret (observation (snd r)))
  = Ok [[9; 9]; [0; 0]; [0; 0]; [0; 0]]
  /\ step demo_env [1; 2; 3] = Raise ValueError.
Proof. split; vm_compute; reflexivity. Qed.

(** C1. [save_midi] is to total what the live steps accumulate, and does
    not: its loop [range(1, len(trajectory))] stops before the last
    cursor.  On the scenario the four live steps return, score the
    cursors 1 to 4 and accumulate 38, the last of them 15 for the cursor
    4 on the finished trajectory; [save_midi] on the finished trajectory
    scores the cursors 1 to 3 only and prints the total 23. *)
Theorem save_midi_omits_last_score :
  run (fst (reset demo_env)) demo_actions = Ok demo_episode
  /\ obs_trajectory (fst demo_episode) = demo_actions
  /\ reward <$> snd demo_episode = [5; 5; 13; 15]
  /\ total_reward (fst demo_episode) = 38
  /\ fst (calc_reward demo_actions (length demo_actions)) = 15
  /\ head (save_midi demo_actions None demo_now)
     = Some (Print "Total reward" (VNum 23))
  /\ fst (rescore demo_actions)
     = foldl py_add py_zero
         ((fun t => fst (calc_reward demo_actions t)) <$> [1; 2; 3]%nat)
  /\ fst (rescore demo_actions) <> total_reward (fst demo_episode).
Proof.
  split; [rewrite (surjective_pairing demo_episode); exact demo_episode_run|].
  do 6 (split; [vm_compute; reflexivity|]).
  vm_compute. discriminate.
Qed.

Lemma save_midi_rescoring_witness :
  prefix_local
  /\ max_trajectory_len demo_env = length demo_actions
  /\ Forall (fun row => storable demo_env row = true) demo_actions
  /\ exists self' outs rest,
       run (fst (reset demo_env)) (take (length demo_actions - 1) demo_actions)
       = Ok (self', outs)
       /\ fst (rescore demo_actions)
          = foldl py_add py_zero
              ((fun t => fst (calc_reward demo_actions t))
                 <$> seq 1 (length demo_actions - 1))
       /\ snd (rescore demo_actions)
          = foldl accumulate ∅
              ((fun t => snd (calc_reward demo_actions t))
                 <$> seq 1 (length demo_actions - 1))
       /\ rescore demo_actions = (total_reward self', partial_rewards self')
       /\ save_midi demo_actions (Some "out") demo_now
          = Print "Total reward" (VNum (total_reward self'))
              :: Print "Info" (VDict (partial_rewards self')) :: rest.
Proof.
  split; [exact demo_prefix_local|]. split; [reflexivity|].
  split; [exact demo_storable|].
  apply (save_midi_rescoring demo_env demo_actions (Some "out") demo_now);
    [exact demo_prefix_local|reflexivity|exact demo_storable].
Defined.

Lemma trajectory_rows_filled_witness :
  Forall (fun action => storable demo_env action = true) demo_actions
  /\ (length demo_actions <= max_trajectory_len demo_env)%nat
  /\ exists self' outs,
       run (fst (reset demo_env)) demo_actions = Ok (self', outs)
       /\ trajectory_idx self' = length demo_actions
       /\ (forall k, (k < trajectory_idx self')%nat ->
             obs_trajectory self' !! k = demo_actions !! k)
       /\ (forall k, (trajectory_idx self' <= k < max_trajectory_len self')%nat ->
             obs_trajectory self' !! k = Some (replicate (num_pitches self') 0))
       /\ (forall action,
             (trajectory_idx self' < max_trajectory_len self')%nat ->
             storable self' action = true ->
             exists self'' out,
               step self' action = Ok (self'', out)
               /\ filled self'' (demo_actions ++ [action])).
Proof.
  split; [exact demo_storable|]. split; [simpl; lia|].
  apply (trajectory_rows_filled demo_env demo_actions);
    [exact demo_storable|simpl; lia].
Defined.

Lemma terminated_on_last_step_witness :
  Forall (fun action => storable demo_env action = true) demo_actions
  /\ length demo_actions = max_trajectory_len demo_env
  /\ exists self' outs,
       run (fst (reset demo_env)) demo_actions = Ok (self', outs)
       /\ length outs = max_trajectory_len demo_env
       /\ trajectory_idx self' = max_trajectory_len demo_env
       /\ forall k out, outs !! k = Some out ->
            terminated out = bool_decide (S k = max_trajectory_len demo_env)
            /\ truncated out = false.
Proof.
  split; [exact demo_storable|]. split; [reflexivity|].
  apply (terminated_on_last_step demo_env demo_actions);
    [exact demo_storable|reflexivity].
Defined.

Lemma total_reward_is_sum_witness :
  run (fst (reset demo_env)) demo_actions = Ok demo_episode
  /\ total_reward (fst demo_episode)
     = foldl py_add py_zero (reward <$> snd demo_episode).
Proof.
  split; [rewrite (surjective_pairing demo_episode); exact demo_episode_run|].
  apply (total_reward_is_sum demo_env (fst demo_episode) demo_actions
           (snd demo_episode)).
  exact demo_episode_run.
Defined.

Lemma step_writes_then_scores_witness :
  reachable demo_env
  /\ (trajectory_idx demo_env < max_trajectory_len demo_env)%nat
  /\ storable demo_env [5; 0] = true
  /\ exists self' out,
       step demo_env [5; 0] = Ok (self', out)
       /\ obs_trajectory self'
          = <[trajectory_idx demo_env := [5; 0]]> (obs_trajectory demo_env)
       /\ obs_trajectory self' !! trajectory_idx demo_env = Some [5; 0]
       /\ length (obs_trajectory self') = max_trajectory_len demo_env
       /\ trajectory_idx self' = S (trajectory_idx demo_env)
       /\ (reward out, info out)
          = calc_reward (obs_trajectory self') (trajectory_idx self')
       /\ observation out = obs_trajectory self'
       /\ total_reward self' = py_add (total_reward demo_env) (reward out).
Proof.
  split; [exact (reach_init 4 2 (Some "out"))|]. split; [simpl; lia|].
  split; [reflexivity|].
  apply (step_writes_then_scores demo_env [5; 0]);
    [exact (reach_init 4 2 (Some "out"))|simpl; lia|reflexivity].
Defined.

Lemma ledger_accumulates_witness :
  step demo_env [5; 0] = Ok demo_first
  /\ np_setrow (obs_trajectory demo_env) (trajectory_idx demo_env) [5; 0]
     = Ok (obs_trajectory (fst demo_first))
  /\ trajectory_idx (fst demo_first) = S (trajectory_idx demo_env)
  /\ info (snd demo_first)
     = snd (calc_reward (obs_trajectory (fst demo_first))
                        (S (trajectory_idx demo_env)))
  /\ forall k : string,
       partial_rewards (fst demo_first) !! k =
         match snd (calc_reward (obs_trajectory (fst demo_first))
                                (S (trajectory_idx demo_env))) !! k with
         | Some v =>
             Some (py_add (default py_zero (partial_rewards demo_env !! k)) v)
         | None => partial_rewards demo_env !! k
         end.
Proof.
  split; [rewrite (surjective_pairing demo_first); exact demo_first_step|].
  apply (ledger_accumulates demo_env (fst demo_first) [5; 0] (snd demo_first)).
  exact demo_first_step.
Defined.

(** C8 does not hold as it is stated: the vector [37; 37] belongs to the
    declared action space, so that 37 is not an excluded bound. *)
Lemma action_space_holds_37 :
  ~ (forall a : list Z,
       contains_vec (action_space demo_env) a = true ->
       Forall (fun x => 0 <= x < 37) a).
Proof.
  intros Hhalf. specialize (Hhalf [37; 37] eq_refl).
  apply Forall_cons in Hhalf as [Hx _]. lia.
Qed.

(** C9, on the scenario at 03:04 of 2 January 2023: [save_midi] names its
    file after the minute and the number of rows, as described, and
    [render] writes one file as well, but puts the seconds since the Epoch
    between the minute and [_ep]. *)
Theorem render_fname_has_epoch_seconds :
  files_written (save_midi (obs_trajectory demo_env) (Some "out") demo_now)
  = ["out/ts01-02-23_0304_ep4.midi"]
  /\ files_written (snd (render demo_env "human" demo_now))
     = ["out/ts01-02-23_03041672628640_ep4.midi"]
  /\ files_written (snd (render demo_env "human" demo_now))
     <> files_written (save_midi (obs_trajectory demo_env) (Some "out") demo_now).
Proof.
  split; [vm_compute; reflexivity|]. split; [vm_compute; reflexivity|].
  vm_compute. discriminate.
Qed.

End Scenario.

(** ** The further behaviour on the scenario *)

Section ScenarioBehaviour.

#[local] Existing Instance demo.

Lemma demo_reachable : reachable demo_env.
Proof. exact (reach_init 4 2 (Some "out")). Qed.

Lemma demo_episode_reachable : reachable (fst demo_episode).
Proof.
  eapply run_reachable; [|exact demo_episode_run].
  apply reach_reset, demo_reachable.
Qed.

Lemma demo_valid :
  Forall (fun action => contains_vec (action_space demo_env) action = true)
         demo_actions.
Proof. repeat constructor. Qed.

Lemma step_accepts_iff_witness :
  reachable demo_env
  /\ ((exists self' out, step demo_env [5; 0] = Ok (self', out))
      <-> (trajectory_idx demo_env < max_trajectory_len demo_env)%nat
          /\ forallb int64_ok [5; 0] = true
          /\ (length [5; 0] = num_pitches demo_env
              \/ length [5; 0] = 1%nat)).
Proof.
  split; [exact demo_reachable|].
  exact (step_accepts_iff demo_env [5; 0] demo_reachable).
Defined.

Lemma step_past_end_raises_witness :
  reachable (fst demo_episode)
  /\ (max_trajectory_len (fst demo_episode)
      <= trajectory_idx (fst demo_episode))%nat
  /\ step (fst demo_episode) [1; 1] = Raise IndexError.
Proof.
  split; [exact demo_episode_reachable|]. split; [vm_compute; lia|].
  apply (step_past_end_raises (fst demo_episode) [1; 1]);
    [exact demo_episode_reachable|vm_compute; lia].
Defined.

Lemma step_wrong_length_raises_witness :
  reachable demo_env
  /\ (trajectory_idx demo_env < max_trajectory_len demo_env)%nat
  /\ forallb int64_ok [1; 2; 3] = true
  /\ length [1; 2; 3] <> num_pitches demo_env
  /\ length [1; 2; 3] <> 1%nat
  /\ step demo_env [1; 2; 3] = Raise ValueError.
Proof.
  split; [exact demo_reachable|]. split; [simpl; lia|].
  split; [reflexivity|]. split; [simpl; lia|]. split; [simpl; lia|].
  apply (step_wrong_length_raises demo_env [1; 2; 3]);
    [exact demo_reachable|simpl; lia|reflexivity|simpl; lia|simpl; lia].
Defined.

Lemma step_overflow_raises_witness :
  reachable demo_env
  /\ (trajectory_idx demo_env < max_trajectory_len demo_env)%nat
  /\ forallb int64_ok [2 ^ 63; 0] = false
  /\ step demo_env [2 ^ 63; 0] = Raise OverflowError.
Proof.
  split; [exact demo_reachable|]. split; [simpl; lia|]. split; [reflexivity|].
  apply (step_overflow_raises demo_env [2 ^ 63; 0]);
    [exact demo_reachable|simpl; lia|reflexivity].
Defined.

Lemma step_broadcasts_witness :
  reachable demo_env
  /\ (trajectory_idx demo_env < max_trajectory_len demo_env)%nat
  /\ int64_ok 9 = true
  /\ exists self' out,
       step demo_env [9] = Ok (self', out)
       /\ obs_trajectory self' !! trajectory_idx demo_env
          = Some (replicate (num_pitches demo_env) 9)
       /\ observation out = obs_trajectory self'.
Proof.
  split; [exact demo_reachable|]. split; [simpl; lia|]. split; [reflexivity|].
  apply (step_broadcasts demo_env 9);
    [exact demo_reachable|simpl; lia|reflexivity].
Defined.

Lemma step_only_cursor_row_witness :
  step demo_env [5; 0] = Ok (fst demo_first, snd demo_first)
  /\ length (obs_trajectory (fst demo_first)) = length (obs_trajectory demo_env)
  /\ (forall k, k <> trajectory_idx demo_env ->
        obs_trajectory (fst demo_first) !! k = obs_trajectory demo_env !! k)
  /\ trajectory_idx (fst demo_first) = S (trajectory_idx demo_env)
  /\ max_trajectory_len (fst demo_first) = max_trajectory_len demo_env
  /\ num_pitches (fst demo_first) = num_pitches demo_env
  /\ midi_savedir (fst demo_first) = midi_savedir demo_env
  /\ action_space (fst demo_first) = action_space demo_env
  /\ observation_space (fst demo_first) = observation_space demo_env.
Proof.
  split; [exact demo_first_step|].
  exact (step_only_cursor_row demo_env (fst demo_first) [5; 0] (snd demo_first)
           demo_first_step).
Defined.

Lemma reachable_invariants_witness :
  reachable (fst demo_episode)
  /\ length (obs_trajectory (fst demo_episode))
     = max_trajectory_len (fst demo_episode)
  /\ Forall (fun row => length row = num_pitches (fst demo_episode))
            (obs_trajectory (fst demo_episode))
  /\ (trajectory_idx (fst demo_episode)
      <= max_trajectory_len (fst demo_episode))%nat
  /\ action_space (fst demo_episode)
     = mkBox 0 37 [num_pitches (fst demo_episode)]
  /\ observation_space (fst demo_episode)
     = mkBox 0 37 [max_trajectory_len (fst demo_episode);
                   num_pitches (fst demo_episode)].
Proof.
  split; [exact demo_episode_reachable|].
  exact (reachable_invariants (fst demo_episode) demo_episode_reachable).
Defined.

Lemma terminated_iff_full_witness :
  reachable demo_env
  /\ step demo_env [5; 0] = Ok (fst demo_first, snd demo_first)
  /\ (terminated (snd demo_first) = true
      <-> trajectory_idx (fst demo_first) = max_trajectory_len (fst demo_first))
  /\ truncated (snd demo_first) = false.
Proof.
  split; [exact demo_reachable|]. split; [exact demo_first_step|].
  exact (terminated_iff_full demo_env (fst demo_first) [5; 0] (snd demo_first)
           demo_reachable demo_first_step).
Defined.

Lemma episode_length_bounded_witness :
  reachable demo_env
  /\ run (fst (reset demo_env)) demo_actions
     = Ok (fst demo_episode, snd demo_episode)
  /\ (length demo_actions <= max_trajectory_len demo_env)%nat
  /\ length (snd demo_episode) = length demo_actions
  /\ trajectory_idx (fst demo_episode) = length demo_actions.
Proof.
  split; [exact demo_reachable|]. split; [exact demo_episode_run|].
  exact (episode_length_bounded demo_env (fst demo_episode) demo_actions
           (snd demo_episode) demo_reachable demo_episode_run).
Defined.

Lemma ledger_keys_after_step_witness :
  step demo_env [5; 0] = Ok (fst demo_first, snd demo_first)
  /\ dom (partial_rewards (fst demo_first))
     = dom (partial_rewards demo_env) ∪ dom (info (snd demo_first)).
Proof.
  split; [exact demo_first_step|].
  exact (ledger_keys_after_step demo_env (fst demo_first) [5; 0]
           (snd demo_first) demo_first_step).
Defined.

Lemma ledger_keys_of_episode_witness :
  run (fst (reset demo_env)) demo_actions
  = Ok (fst demo_episode, snd demo_episode)
  /\ ("steps" ∈ dom (partial_rewards (fst demo_episode))
      <-> exists out, out ∈ snd demo_episode /\ "steps" ∈ dom (info out)).
Proof.
  split; [exact demo_episode_run|].
  exact (ledger_keys_of_episode demo_env (fst demo_episode) demo_actions
           (snd demo_episode) "steps" demo_episode_run).
Defined.

Lemma ledger_entry_is_sum_witness :
  run (fst (reset demo_env)) demo_actions
  = Ok (fst demo_episode, snd demo_episode)
  /\ partial_rewards (fst demo_episode) !! "pitch_sum" =
       match omap (fun out => info out !! "pitch_sum") (snd demo_episode) with
       | [] => None
       | vs => Some (foldl py_add py_zero vs)
       end.
Proof.
  split; [exact demo_episode_run|].
  exact (ledger_entry_is_sum demo_env (fst demo_episode) demo_actions
           (snd demo_episode) "pitch_sum" demo_episode_run).
Defined.

Lemma observations_stay_in_space_witness :
  reachable demo_env
  /\ Forall (fun action => contains_vec (action_space demo_env) action = true)
            demo_actions
  /\ run (fst (reset demo_env)) demo_actions
     = Ok (fst demo_episode, snd demo_episode)
  /\ contains_mat (observation_space demo_env) (fst (snd (reset demo_env)))
     = true
  /\ Forall (fun out =>
               contains_mat (observation_space demo_env) (observation out)
               = true)
            (snd demo_episode).
Proof.
  split; [exact demo_reachable|]. split; [exact demo_valid|].
  split; [exact demo_episode_run|].
  exact (observations_stay_in_space demo_env (fst demo_episode) demo_actions
           (snd demo_episode) demo_reachable demo_valid demo_episode_run).
Defined.

Lemma step_does_not_validate_witness :
  reachable demo_env
  /\ (trajectory_idx demo_env < max_trajectory_len demo_env)%nat
  /\ storable demo_env [99; 0] = true
  /\ contains_vec (action_space demo_env) [99; 0] = false
  /\ exists self' out,
       step demo_env [99; 0] = Ok (self', out)
       /\ obs_trajectory self' !! trajectory_idx demo_env = Some [99; 0]
       /\ contains_mat (observation_space demo_env) (observation out) = false.
Proof.
  split; [exact demo_reachable|]. split; [simpl; lia|].
  split; [reflexivity|]. split; [reflexivity|].
  apply (step_does_not_validate demo_env [99; 0]);
    [exact demo_reachable|simpl; lia|reflexivity|reflexivity].
Defined.

Lemma save_midi_short_trajectory_witness :
  (length [[5; 0]] <= 1)%nat
  /\ exists rest,
       save_midi [[5; 0]] (Some "out") demo_now
       = Print "Total reward" (VNum py_zero) :: Print "Info" (VDict ∅) :: rest.
Proof.
  split; [simpl; lia|].
  apply (save_midi_short_trajectory [[5; 0]] (Some "out") demo_now).
  simpl; lia.
Defined.

Lemma live_total_is_rescore_plus_last_witness :
  prefix_local
  /\ max_trajectory_len demo_env = length demo_actions
  /\ Forall (fun row => storable demo_env row = true) demo_actions
  /\ (0 < length demo_actions)%nat
  /\ exists self' outs,
       run (fst (reset demo_env)) demo_actions = Ok (self', outs)
       /\ total_reward self'
          = py_add (fst (rescore demo_actions))
                   (fst (calc_reward demo_actions (length demo_actions)))
       /\ partial_rewards self'
          = accumulate (snd (rescore demo_actions))
                       (snd (calc_reward demo_actions (length demo_actions))).
Proof.
  split; [exact demo_prefix_local|]. split; [reflexivity|].
  split; [exact demo_storable|]. split; [simpl; lia|].
  apply (live_total_is_rescore_plus_last demo_env demo_actions);
    [exact demo_prefix_local|reflexivity|exact demo_storable|simpl; lia].
Defined.

Lemma save_midi_path_witness :
  "out" <> EmptyString
  /\ files_written (save_midi demo_actions (Some "out") demo_now)
     = [ ("out" ++ (if endswith_sep "out" then "" else "/")
          ++ "ts" ++ two_digits (tm_mon demo_now) ++ "-"
          ++ two_digits (tm_mday demo_now)
          ++ "-" ++ two_digits (tm_year demo_now mod 100) ++ "_"
          ++ two_digits (tm_hour demo_now) ++ two_digits (tm_min demo_now)
          ++ "_ep" ++ decimal (length demo_actions) ++ ".midi")%string ].
Proof.
  split; [discriminate|].
  apply (save_midi_path demo_actions "out" demo_now). discriminate.
Defined.

Lemma render_counts_buffer_rows_witness :
  reachable (fst demo_first)
  /\ truthy (midi_savedir (fst demo_first)) = true
  /\ exists stamp,
       files_written (snd (render (fst demo_first) "human" demo_now))
       = [ path_join (default "" (midi_savedir (fst demo_first)))
             ("ts" ++ stamp ++ "_ep"
              ++ decimal (max_trajectory_len (fst demo_first))
              ++ ".midi")%string ].
Proof.
  assert (reachable (fst demo_first)) as Hreach.
  { eapply reach_step; [exact demo_reachable|exact demo_first_step]. }
  split; [exact Hreach|]. split; [reflexivity|].
  apply (render_counts_buffer_rows (fst demo_first) "human" demo_now);
    [exact Hreach|reflexivity].
Defined.

End ScenarioBehaviour.
